(** * RealFaceDetection: the capture-and-detect screen of page/DisplayImage.jsx

    The component is a React function component: six pieces of [useState]
    state, one mount effect, two asynchronous handlers, one inline handler,
    a canvas callback and a render function.  The embedding keeps that shape:

    - the React state is a record, every setter call is an [Effect];
    - asynchronous code is a term of a small free monad [Async] whose
      [Await] nodes are the suspension points of the JavaScript [await];
    - the event loop is the function [exec], driven by button presses,
      completions of awaited host calls and the unmount of the component;
    - the JSX returned by the component is a tree of [Node]s. *)

From Stdlib Require Import List String Ascii Bool Arith Lia Floats.
Import ListNotations.
Open Scope string_scope.
Open Scope list_scope.

Set Implicit Arguments.
Set Warnings "-register-all".

(** ** JavaScript values the component handles *)

(** A thrown value or a promise rejection reason; only ever logged. *)
Definition Error := string.

(** How a host call ends: [await] of a rejected promise throws. *)
Inductive Outcome (R : Type) : Type :=
| Resolved (r : R)
| Rejected (err : Error).
Arguments Rejected {R} err.

(** Result of a computation that may throw. *)
Inductive Completion (A : Type) : Type :=
| Normal (a : A)
| Threw (err : Error).
Arguments Threw {A} err.

(** [arr[i]] on a JavaScript array: [None] is [undefined]. *)
Definition index {A} (arr : list A) (i : nat) : option A := nth_error arr i.
Arguments index : simpl never.

(** Truthiness of the [image] state: [null] and the empty string are falsy. *)
Definition truthy (v : option string) : bool :=
  match v with
  | None => false
  | Some s => negb (s =? "")
  end.

(** Handles of host objects; the component never looks inside them. *)
Record Model := { modelHandle : nat }.
Record Tensor := { tensorHandle : nat }.
Inductive Camera := CameraViewInstance.
Record Photo := { uri : string }.
Record PermissionResponse := { status : string }.

(** One raw prediction of [model.estimateFaces(tensor, false)]: plain arrays
    of numbers, of whatever length the model returns. *)
Module Prediction.
Record t := {
  probability : list float;
  topLeft : list float;
  bottomRight : list float;
  landmarks : list (list float)
}.
End Prediction.

(** [{ part, x, y }]; a coordinate read past the end of an array is
    [undefined], here [None]. *)
Module Landmark.
Record t := { part : string; x : option float; y : option float }.
End Landmark.

(** The object built for each prediction. *)
Module Detection.
Record t := {
  class : string;
  score : option float;
  boundingBox : list float;
  landmarks : list Landmark.t
}.
End Detection.

(** ** Component state *)

Record State := {
  hasPermission : option bool;
  image : option string;
  detections : list Detection.t;
  isLoading : bool;
  isTfReady : bool;
  model : option Model
}.

(** The [useState] initial values. *)
Definition initialState : State :=
  {| hasPermission := None; image := None; detections := [];
     isLoading := false; isTfReady := false; model := None |}.

(** Calls the component makes on its surroundings: the six setters and
    [console.error]. *)
Inductive Effect :=
| setHasPermission (b : bool)
| setImage (v : option string)
| setDetections (ds : list Detection.t)
| setIsLoading (b : bool)
| setIsTfReady (b : bool)
| setModel (m : Model)
| console_error (msg : string) (err : Error).

Definition is_setter (c : Effect) : bool :=
  match c with
  | console_error _ _ => false
  | _ => true
  end.

(** Every setter is called with a value (never an updater function), so
    it replaces the field. *)
Definition apply (c : Effect) (st : State) : State :=
  match c with
  | setHasPermission b =>
      {| hasPermission := Some b; image := image st; detections := detections st;
         isLoading := isLoading st; isTfReady := isTfReady st; model := model st |}
  | setImage v =>
      {| hasPermission := hasPermission st; image := v; detections := detections st;
         isLoading := isLoading st; isTfReady := isTfReady st; model := model st |}
  | setDetections ds =>
      {| hasPermission := hasPermission st; image := image st; detections := ds;
         isLoading := isLoading st; isTfReady := isTfReady st; model := model st |}
  | setIsLoading b =>
      {| hasPermission := hasPermission st; image := image st; detections := detections st;
         isLoading := b; isTfReady := isTfReady st; model := model st |}
  | setIsTfReady b =>
      {| hasPermission := hasPermission st; image := image st; detections := detections st;
         isLoading := isLoading st; isTfReady := b; model := model st |}
  | setModel m =>
      {| hasPermission := hasPermission st; image := image st; detections := detections st;
         isLoading := isLoading st; isTfReady := isTfReady st; model := Some m |}
  | console_error _ _ => st
  end.

(** ** Host calls *)

(** The calls into expo-camera, expo-file-system, tfjs and blazeface, indexed
    by the type of what they return. *)
Inductive Ext : Type -> Type :=
| requestCameraPermissionsAsync : Ext PermissionResponse
| tf_ready : Ext unit
| blazeface_load : Ext Model
| takePictureAsync (cam : Camera) : Ext Photo
| readAsStringAsync (fileUri : string) (encoding : string) : Ext string
| encodeString (s : string) (encoding : string) : Ext (list Byte.byte)
| decodeJpeg (contents : list Byte.byte) : Ext Tensor
| estimateFaces (m : Model) (input : Tensor) (returnTensors : bool)
    : Ext (list Prediction.t).

(** What the surroundings answer to each host call. *)
Definition Oracle := forall R, Ext R -> Outcome R.

(** ** Asynchronous computations *)

Inductive Async (A : Type) : Type :=
| Ret (a : A)
| Throw (err : Error)
| Do (c : Effect) (k : Async A)
| Call (R : Type) (e : Ext R) (k : Outcome R -> Async A)
| Await (R : Type) (e : Ext R) (k : Outcome R -> Async A)
| ReadIsMounted (k : bool -> Async A).
Arguments Throw {A} err.
Arguments Call {A R} e k.
Arguments Await {A R} e k.

Fixpoint bind {A B} (m : Async A) (f : A -> Async B) : Async B :=
  match m with
  | Ret a => f a
  | Throw err => Throw err
  | Do c k => Do c (bind k f)
  | Call e k => Call e (fun o => bind (k o) f)
  | Await e k => Await e (fun o => bind (k o) f)
  | ReadIsMounted k => ReadIsMounted (fun b => bind (k b) f)
  end.

(** [try { m } catch (error) { h error }] *)
Fixpoint try_catch {A} (m : Async A) (h : Error -> Async A) : Async A :=
  match m with
  | Ret a => Ret a
  | Throw err => h err
  | Do c k => Do c (try_catch k h)
  | Call e k => Call e (fun o => try_catch (k o) h)
  | Await e k => Await e (fun o => try_catch (k o) h)
  | ReadIsMounted k => ReadIsMounted (fun b => try_catch (k b) h)
  end.

(** [try { m } finally { fin }] *)
Fixpoint try_finally {A} (m : Async A) (fin : Async unit) : Async A :=
  match m with
  | Ret a => bind fin (fun _ => Ret a)
  | Throw err => bind fin (fun _ => Throw err)
  | Do c k => Do c (try_finally k fin)
  | Call e k => Call e (fun o => try_finally (k o) fin)
  | Await e k => Await e (fun o => try_finally (k o) fin)
  | ReadIsMounted k => ReadIsMounted (fun b => try_finally (k b) fin)
  end.

Definition settle {R} (o : Outcome R) : Async R :=
  match o with
  | Resolved r => Ret r
  | Rejected err => Throw err
  end.

(** [await e] suspends; [call e] is a synchronous host call that may throw. *)
Definition await {R} (e : Ext R) : Async R := Await e settle.
Definition call {R} (e : Ext R) : Async R := Call e settle.
Definition do (c : Effect) : Async unit := Do c (Ret tt).
Definition readIsMounted : Async bool := ReadIsMounted (fun b => Ret b).

Definition lift {A} (r : Completion A) : Async A :=
  match r with
  | Normal a => Ret a
  | Threw err => Throw err
  end.

Notation "x <- m ;; k" := (bind m (fun x => k))
  (at level 61, m at next level, right associativity).
Notation "m ;;; k" := (bind m (fun _ => k))
  (at level 61, right associativity).

(** ** The code of the component *)

(** Reading a property of [undefined] is a TypeError. *)
Definition TypeError : Error := "TypeError".

(** [{ part: name, x: prediction.landmarks[i][0], y: prediction.landmarks[i][1] }] *)
Definition landmarkAt (name : string) (p : Prediction.t) (i : nat)
  : Completion Landmark.t :=
  match index (Prediction.landmarks p) i with
  | None => Threw TypeError
  | Some pt => Normal {| Landmark.part := name;
                         Landmark.x := index pt 0;
                         Landmark.y := index pt 1 |}
  end.

Definition andThen {A B} (r : Completion A) (f : A -> Completion B)
  : Completion B :=
  match r with
  | Normal a => f a
  | Threw err => Threw err
  end.

(** The arrow function passed to [predictions.map]. *)
Definition mapPrediction (prediction : Prediction.t) : Completion Detection.t :=
  let score := index (Prediction.probability prediction) 0 in
  let boundingBox :=
    Prediction.topLeft prediction ++ Prediction.bottomRight prediction in
  andThen (landmarkAt "left_eye" prediction 0) (fun l0 =>
  andThen (landmarkAt "right_eye" prediction 1) (fun l1 =>
  andThen (landmarkAt "nose" prediction 2) (fun l2 =>
  andThen (landmarkAt "mouth_left" prediction 3) (fun l3 =>
  andThen (landmarkAt "mouth_right" prediction 4) (fun l4 =>
  Normal {| Detection.class := "Hursun";
            Detection.score := score;
            Detection.boundingBox := boundingBox;
            Detection.landmarks := [l0; l1; l2; l3; l4] |}))))).

(** [predictions.map(f)] for a callback that may throw: the first throw
    ends the whole map. *)
Fixpoint mapArray {A B} (f : A -> Completion B) (arr : list A)
  : Completion (list B) :=
  match arr with
  | [] => Normal []
  | a :: rest =>
      andThen (f a) (fun b =>
      andThen (mapArray f rest) (fun bs => Normal (b :: bs)))
  end.

(** The body of the [try] block of [detectFaces].  [encodeString] stands
    for [tf.util.encodeString(imgB64, 'base64').buffer] wrapped in
    [new Uint8Array(...)]: the bytes of the image. *)
Definition detectFaces_try (image : string) (model : Model) : Async unit :=
  imgB64 <- await (readAsStringAsync image "base64") ;;
  rawImageData <- call (encodeString imgB64 "base64") ;;
  imageTensor <- call (decodeJpeg rawImageData) ;;
  predictions <- await (estimateFaces model imageTensor false) ;;
  if (0 <? List.length predictions)%nat then
    detectedFaces <- lift (mapArray mapPrediction predictions) ;;
    do (setDetections detectedFaces)
  else
    do (setDetections []).

(** [if (image && model)]: [image] is null or a string, [model] null or the
    loaded model object. *)
Definition detectFaces (image : option string) (model : option Model)
  : Async unit :=
  match image, model with
  | Some img, Some mdl =>
      if truthy image then
        do (setIsLoading true) ;;;
        try_finally
          (try_catch (detectFaces_try img mdl)
             (fun error => do (console_error "Detection Error:" error)))
          (do (setIsLoading false))
      else Ret tt
  | _, _ => Ret tt
  end.

(** [takePicture], given the value of [cameraRef.current] when it is called. *)
Definition takePicture (cameraRef_current : option Camera) : Async unit :=
  match cameraRef_current with
  | Some cam =>
      photo <- await (takePictureAsync cam) ;;
      do (setImage (Some (uri photo)))
  | None => Ret tt
  end.

(** [onPress] of "Capture Another Photo": [() => setImage(null)]. *)
Definition captureAnother : Async unit := do (setImage None).

(** The async function started by the mount effect. *)
Definition mountEffect : Async unit :=
  response <- await requestCameraPermissionsAsync ;;
  (isMounted <- readIsMounted ;;
   if isMounted : bool then do (setHasPermission (status response =? "granted"))
   else Ret tt) ;;;
  await tf_ready ;;;
  (isMounted <- readIsMounted ;;
   if isMounted : bool then do (setIsTfReady true) else Ret tt) ;;;
  loadedModel <- await blazeface_load ;;
  (isMounted <- readIsMounted ;;
   if isMounted : bool then do (setModel loadedModel) else Ret tt).

(** ** What the component renders *)

Inductive Handler := onTakePicture | onDetectFaces | onCaptureAnother.

Definition Handler_eqb (a b : Handler) : bool :=
  match a, b with
  | onTakePicture, onTakePicture
  | onDetectFaces, onDetectFaces
  | onCaptureAnother, onCaptureAnother => true
  | _, _ => false
  end.

(** The element types the JSX uses, with the props that matter; [style]
    is the name of the entry of [styles] (the [key] props are left out). *)
Inductive Tag :=
| View (style : string)
| Text (style : string)
| CameraView (style : string)
| TouchableOpacity (style : string) (onPress : Handler)
| Image (source_uri : string) (style : string)
| ActivityIndicator (size color : string).

(** A JSX child: an element, or the value of a [{...}] expression.
    [MathRound v] is the number [Math.round(v)]; [JsFalse], [Null] and
    [Undefined] display nothing. *)
Inductive Node :=
| Elem (tag : Tag) (children : list Node)
| Str (s : string)
| Num (v : float)
| MathRound (v : float)
| Undefined
| Null
| JsFalse
| Arr (items : list Node).

Definition numOrUndefined (v : option float) : Node :=
  match v with
  | Some n => Num n
  | None => Undefined
  end.

(** [undefined * 100] is NaN. *)
Definition times100 (v : option float) : float :=
  match v with
  | Some n => (n * 100)%float
  | None => nan
  end.

Definition landmarkItem (landmark : Landmark.t) : Node :=
  Elem (Text "landmarkItem")
    [Str (Landmark.part landmark); Str ": ("; numOrUndefined (Landmark.x landmark);
     Str ", "; numOrUndefined (Landmark.y landmark); Str ")"].

Definition detectionItem (detection : Detection.t) : Node :=
  Elem (View "detectionItemContainer")
    [Elem (Text "detectionItem")
       [Str (Detection.class detection); Str " - ";
        MathRound (times100 (Detection.score detection)); Str "%"];
     Elem (Text "landmarksText") [Str "Landmarks:"];
     Arr (map landmarkItem (Detection.landmarks detection))].

Definition noFaceMessage : Node :=
  Elem (Text "noObjectText") [Str "No Face detected. Please try another image."].

Definition cameraView : Node :=
  Elem (CameraView "camera")
    [Elem (View "buttonContainer")
       [Elem (TouchableOpacity "button" onTakePicture)
          [Elem (Text "text") [Str "Take Photo"]]]].

Definition reviewView (img : string) (st : State) : Node :=
  Elem (View "{display:flex,alignItems:center,justifyContent:center}")
    [Elem (Image img "previewImage") [];
     Elem (View "actionButtons")
       [Elem (TouchableOpacity "actionButton" onDetectFaces)
          [Elem (Text "text") [Str "Detect Faces"]];
        Elem (TouchableOpacity "actionButton" onCaptureAnother)
          [Elem (Text "text") [Str "Capture Another Photo"]]];
     (if isLoading st then Elem (ActivityIndicator "large" "#0000ff") [] else JsFalse);
     (if (0 <? List.length (detections st))%nat then
        Elem (View "detectionResults")
          [Elem (Text "detectionText") [Str "Detected Face:"];
           Arr (map detectionItem (detections st))]
      else
        if negb (isLoading st) then noFaceMessage else JsFalse)].

Definition accessDenied : Node := Elem (Text "") [Str "No access to camera"].

(** The return value of the component function. *)
Definition render (st : State) : Node :=
  match hasPermission st with
  | None => Elem (View "") []
  | Some false => accessDenied
  | Some true =>
      Elem (View "container")
        [(if negb (truthy (image st)) then cameraView else JsFalse);
         match image st with
         | None => Null
         | Some img => if img =? "" then Str "" else reviewView img st
         end]
  end.

(** Number of elements of the tree whose tag satisfies [f]. *)
Fixpoint count (f : Tag -> bool) (n : Node) : nat :=
  match n with
  | Elem t cs => (if f t then 1 else 0) + list_sum (map (count f) cs)
  | Arr cs => list_sum (map (count f) cs)
  | _ => 0
  end.

Definition shows (f : Tag -> bool) (n : Node) : bool := (0 <? count f n)%nat.

Definition isCameraView (t : Tag) : bool :=
  match t with CameraView _ => true | _ => false end.
Definition isActivityIndicator (t : Tag) : bool :=
  match t with ActivityIndicator _ _ => true | _ => false end.
Definition isNoFaceMessage (t : Tag) : bool :=
  match t with Text style => style =? "noObjectText" | _ => false end.
Definition isDetectionItem (t : Tag) : bool :=
  match t with View style => style =? "detectionItemContainer" | _ => false end.
Definition isLandmarkItem (t : Tag) : bool :=
  match t with Text style => style =? "landmarkItem" | _ => false end.
Definition isButton (h : Handler) (t : Tag) : bool :=
  match t with TouchableOpacity _ h' => Handler_eqb h h' | _ => false end.

(** ** The landmark overlay *)

(** Calls on the 2D context. *)
Inductive CtxCall :=
| clearRect (x y w h : nat)
| beginPath
| arc (x y : option float) (radius startAngle endAngle : float)
| set_fillStyle (color : string)
| fill
| closePath
| flush.

Definition Math_PI : float := 0x1.921fb54442d18p+1%float.

(** The calls [onContextCreate] makes on [ctx], for a GL context with the
    given drawing buffer size. *)
Definition drawLandmark (landmark : Landmark.t) : list CtxCall :=
  [beginPath;
   arc (Landmark.x landmark) (Landmark.y landmark) 5 0 (2 * Math_PI);
   set_fillStyle "red";
   fill;
   closePath].

Definition onContextCreate_calls (detections : list Detection.t)
    (drawingBufferWidth drawingBufferHeight : nat) : list CtxCall :=
  if (0 <? List.length detections)%nat then
    clearRect 0 0 drawingBufferWidth drawingBufferHeight
      :: flat_map (fun detection =>
                     flat_map drawLandmark (Detection.landmarks detection))
                  detections
      ++ [flush]
  else [].

(** The render contract of the drawing surface (the 2D context library is
    not part of the repository): a path collects segments, [fill] paints the
    current path with the current fill style, [clearRect] over the whole
    buffer erases what was painted, [flush] presents the buffer. *)
Inductive Segment :=
| ArcSeg (x y : option float) (radius startAngle endAngle : float)
| ClosingLine.

Inductive Paint :=
| Filled (path : list Segment) (color : string)
| Erased (x y w h : nat).

Record GL := {
  drawingBufferWidth : nat;
  drawingBufferHeight : nat;
  buffer : list Paint;
  presented : list Paint
}.

Record Ctx := { gl : GL; path : list Segment; fillStyle : string }.

(** [new Expo2DContext(gl)] *)
Definition new_Expo2DContext (g : GL) : Ctx :=
  {| gl := g; path := []; fillStyle := "#000000" |}.

Definition withBuffer (g : GL) (b : list Paint) : GL :=
  {| drawingBufferWidth := drawingBufferWidth g;
     drawingBufferHeight := drawingBufferHeight g;
     buffer := b; presented := presented g |}.

Definition ctxStep (ctx : Ctx) (c : CtxCall) : Ctx :=
  match c with
  | clearRect x y w h =>
      let g := gl ctx in
      let whole := ((x =? 0) && (y =? 0) && (drawingBufferWidth g <=? w)
                    && (drawingBufferHeight g <=? h))%nat in
      {| gl := withBuffer g (if whole then [] else buffer g ++ [Erased x y w h]);
         path := path ctx; fillStyle := fillStyle ctx |}
  | beginPath => {| gl := gl ctx; path := []; fillStyle := fillStyle ctx |}
  | arc x y r a0 a1 =>
      {| gl := gl ctx; path := path ctx ++ [ArcSeg x y r a0 a1];
         fillStyle := fillStyle ctx |}
  | set_fillStyle color => {| gl := gl ctx; path := path ctx; fillStyle := color |}
  | fill =>
      {| gl := withBuffer (gl ctx) (buffer (gl ctx) ++ [Filled (path ctx) (fillStyle ctx)]);
         path := path ctx; fillStyle := fillStyle ctx |}
  | closePath =>
      {| gl := gl ctx; path := path ctx ++ [ClosingLine]; fillStyle := fillStyle ctx |}
  | flush =>
      let g := gl ctx in
      {| gl := {| drawingBufferWidth := drawingBufferWidth g;
                  drawingBufferHeight := drawingBufferHeight g;
                  buffer := buffer g; presented := buffer g |};
         path := path ctx; fillStyle := fillStyle ctx |}
  end.

(** [onContextCreate(gl)] of a component whose state holds [detections]:
    the surface after the callback. *)
Definition onContextCreate (detections : list Detection.t) (g : GL) : GL :=
  gl (fold_left ctxStep
        (onContextCreate_calls detections
           (drawingBufferWidth g) (drawingBufferHeight g))
        (new_Expo2DContext g)).

(** The marker painted for one landmark. *)
Definition marker (landmark : Landmark.t) : Paint :=
  Filled [ArcSeg (Landmark.x landmark) (Landmark.y landmark) 5 0 (2 * Math_PI)] "red".

Definition markers (detections : list Detection.t) : list Paint :=
  flat_map (fun detection => map marker (Detection.landmarks detection)) detections.

(** ** The event loop *)

Inductive Origin := FromMountEffect | FromPress (h : Handler).

(** An async function suspended at an [await]. *)
Record Task := {
  origin : Origin;
  awaited : Type;
  request : Ext awaited;
  resume : Outcome awaited -> Async unit
}.

(** [isMounted] is the variable of the mount effect; the cleanup clears it
    when the component is unmounted.  [history] lists the setter and console
    calls made so far, oldest first; [uncaught] the rejections nobody
    handled.  [state] holds the values last passed to the setters: it is the
    state React keeps for the component as long as the component is mounted;
    what becomes of a setter call made after the unmount is up to React and
    is read off [history], not off [state]. *)
Record Sys := {
  state : State;
  isMounted : bool;
  tasks : list Task;
  history : list Effect;
  uncaught : list Error
}.

Definition perform (c : Effect) (s : Sys) : Sys :=
  {| state := apply c (state s); isMounted := isMounted s; tasks := tasks s;
     history := history s ++ [c]; uncaught := uncaught s |}.

Definition suspend (t : Task) (s : Sys) : Sys :=
  {| state := state s; isMounted := isMounted s; tasks := tasks s ++ [t];
     history := history s; uncaught := uncaught s |}.

Definition reject (err : Error) (s : Sys) : Sys :=
  {| state := state s; isMounted := isMounted s; tasks := tasks s;
     history := history s; uncaught := uncaught s ++ [err] |}.

(** Run a computation up to its next [await]. *)
Fixpoint advance (o : Origin) (w : Oracle) (p : Async unit) (s : Sys) : Sys :=
  match p with
  | Ret _ => s
  | Throw err => reject err s
  | Do c k => advance o w k (perform c s)
  | Call e k => advance o w (k (w _ e)) s
  | Await e k => suspend {| origin := o; request := e; resume := k |} s
  | ReadIsMounted k => advance o w (k (isMounted s)) s
  end.

(** Run a computation to its end with nothing else in between: every
    [await] is answered at once. *)
Fixpoint complete {A} (w : Oracle) (p : Async A) (s : Sys) : Sys * Completion A :=
  match p with
  | Ret a => (s, Normal a)
  | Throw err => (s, Threw err)
  | Do c k => complete w k (perform c s)
  | Call e k => complete w (k (w _ e)) s
  | Await e k => complete w (k (w _ e)) s
  | ReadIsMounted k => complete w (k (isMounted s)) s
  end.

(** [cameraRef.current]: the camera while a [CameraView] is rendered. *)
Definition cameraRef_current (st : State) : option Camera :=
  if shows isCameraView (render st) then Some CameraViewInstance else None.

(** The function bound to each [onPress], closed over the state of the
    render that shows the button. *)
Definition handler (h : Handler) (st : State) : Async unit :=
  match h with
  | onTakePicture => takePicture (cameraRef_current st)
  | onDetectFaces => detectFaces (image st) (model st)
  | onCaptureAnother => captureAnother
  end.

Inductive Event :=
| Press (h : Handler) (w : Oracle)
| Settle (i : nat) (w : Oracle)
| Unmount.

Fixpoint removeAt {A} (i : nat) (l : list A) : list A :=
  match l, i with
  | [], _ => []
  | _ :: rest, O => rest
  | a :: rest, S j => a :: removeAt j rest
  end.

Definition withTasks (ts : list Task) (s : Sys) : Sys :=
  {| state := state s; isMounted := isMounted s; tasks := ts;
     history := history s; uncaught := uncaught s |}.

(** One turn of the event loop.  A button can be pressed while the
    component is mounted and the button is on screen; [Settle i w] delivers
    the outcome of the host call the [i]-th suspended task waits for;
    [Unmount] runs the cleanup of the mount effect. *)
Definition exec (s : Sys) (ev : Event) : Sys :=
  match ev with
  | Press h w =>
      if isMounted s && shows (isButton h) (render (state s)) then
        advance (FromPress h) w (handler h (state s)) s
      else s
  | Settle i w =>
      match nth_error (tasks s) i with
      | Some t =>
          advance (origin t) w (resume t (w _ (request t)))
            (withTasks (removeAt i (tasks s)) s)
      | None => s
      end
  | Unmount =>
      {| state := state s; isMounted := false; tasks := tasks s;
         history := history s; uncaught := uncaught s |}
  end.

Definition silent : Oracle := fun _ _ => Rejected "no host call".

(** The component right after its first render: the mount effect has
    started and waits for the permission dialog. *)
Definition mount : Sys :=
  advance FromMountEffect silent mountEffect
    {| state := initialState; isMounted := true; tasks := [];
       history := []; uncaught := [] |}.

Definition run (evs : list Event) : Sys := fold_left exec evs mount.


(** ** Predicates used in the statements *)

(** The five names, in the order of the object literal. *)
Definition landmarkNames : list string :=
  ["left_eye"; "right_eye"; "nose"; "mouth_left"; "mouth_right"].

(** [prediction.landmarks[i][j]], when [prediction.landmarks[i]] exists. *)
Definition coordinate (p : Prediction.t) (i j : nat) : option float :=
  match index (Prediction.landmarks p) i with
  | Some pt => index pt j
  | None => None
  end.

Definition isPermissionSetter (c : Effect) : bool :=
  match c with setHasPermission _ => true | _ => false end.
Definition isImageSetter (c : Effect) : bool :=
  match c with setImage _ => true | _ => false end.

(** [avoids f p]: whatever the host answers, [p] makes no call that
    satisfies [f]. *)
Fixpoint avoids (f : Effect -> bool) {A} (p : Async A) : Prop :=
  match p with
  | Ret _ | Throw _ => True
  | Do c k => f c = false /\ avoids f k
  | Call e k => forall out, avoids f (k out)
  | Await e k => forall out, avoids f (k out)
  | ReadIsMounted k => forall b, avoids f (k b)
  end.

(** [once f p]: [p] makes at most one call that satisfies [f]. *)
Fixpoint once (f : Effect -> bool) {A} (p : Async A) : Prop :=
  match p with
  | Ret _ | Throw _ => True
  | Do c k => if f c then avoids f k else once f k
  | Call e k => forall out, once f (k out)
  | Await e k => forall out, once f (k out)
  | ReadIsMounted k => forall b, once f (k b)
  end.

(** [guarded m p]: started while the flag [isMounted] has value [m], [p]
    calls a setter only while the flag is set; the flag can be cleared, and
    only cleared, at every [await]. *)
Fixpoint guarded (m : bool) {A} (p : Async A) : Prop :=
  match p with
  | Ret _ | Throw _ => True
  | Do c k => (is_setter c = true -> m = true) /\ guarded m k
  | Call e k => forall out, guarded m (k out)
  | Await e k => forall out, guarded false (k out) /\ (m = true -> guarded true (k out))
  | ReadIsMounted k => guarded m (k m)
  end.

(** Number of [await]s a computation goes through when the host answers
    as [w] does and the flag [isMounted] keeps the value [m]. *)
Fixpoint awaits {A} (w : Oracle) (m : bool) (p : Async A) : nat :=
  match p with
  | Ret _ | Throw _ => 0
  | Do _ k => awaits w m k
  | Call e k => awaits w m (k (w _ e))
  | Await e k => S (awaits w m (k (w _ e)))
  | ReadIsMounted k => awaits w m (k m)
  end.

(** The tasks whose continuation has property [Q]. *)
Definition tasksAll (Q : Async unit -> Prop) (ts : list Task) : Prop :=
  Forall (fun t => forall out, Q (resume t out)) ts.

(** The setter calls among the calls made so far. *)
Definition setterCalls (s : Sys) : list Effect := filter is_setter (history s).

Definition taskGuarded (m : bool) (t : Task) : Prop :=
  origin t = FromMountEffect ->
  forall out, guarded false (resume t out) /\ (m = true -> guarded true (resume t out)).

(** ** Invariant of the running component *)

Record Inv (s : Sys) : Prop := {
  (** once the permission is known, nothing in flight sets it again *)
  inv_known : hasPermission (state s) <> None ->
              tasksAll (avoids isPermissionSetter) (tasks s);
  (** before that only the mount effect is in flight *)
  inv_unknown : hasPermission (state s) = None ->
                List.length (tasks s) <= 1 /\
                tasksAll (once isPermissionSetter) (tasks s);
  (** without a granted permission there is no image and none on its way *)
  inv_image : hasPermission (state s) <> Some true ->
              image (state s) = None /\
              tasksAll (avoids isImageSetter) (tasks s);
  (** the mount effect is guarded by its flag *)
  inv_guard : Forall (taskGuarded (isMounted s)) (tasks s)
}.

(** ** Sample surroundings *)

(** A host that grants or denies the permission, hands out the given
    photo, and answers the file read and the inference as told. *)
Definition host (permission photo : string) (file : Outcome string)
    (faces : Outcome (list Prediction.t)) : Oracle :=
  fun R e =>
    match e in Ext R return Outcome R with
    | requestCameraPermissionsAsync => Resolved {| status := permission |}
    | tf_ready => Resolved tt
    | blazeface_load => Resolved {| modelHandle := 1 |}
    | takePictureAsync _ => Resolved {| uri := photo |}
    | readAsStringAsync _ _ => file
    | encodeString _ _ => Resolved []
    | decodeJpeg _ => Resolved {| tensorHandle := 1 |}
    | estimateFaces _ _ _ => faces
    end.

Definition sampleFace : Prediction.t :=
  {| Prediction.probability := [0.875%float];
     Prediction.topLeft := [10%float; 20%float];
     Prediction.bottomRight := [110%float; 120%float];
     Prediction.landmarks :=
       [[30%float; 40%float]; [70%float; 40%float]; [50%float; 60%float];
        [35%float; 80%float]; [65%float; 80%float]; [20%float; 50%float]] |}.

Definition oneFace : Oracle :=
  host "granted" "file:///photo.jpg" (Resolved "/9j/4AAQ") (Resolved [sampleFace]).
Definition noFace : Oracle :=
  host "granted" "file:///photo.jpg" (Resolved "/9j/4AAQ") (Resolved []).
Definition unreadable : Oracle :=
  host "granted" "file:///photo.jpg" (Rejected "ENOENT") (Resolved [sampleFace]).
Definition refusing : Oracle :=
  host "denied" "file:///photo.jpg" (Rejected "ENOENT") (Resolved []).

(** Permission granted, runtime and model loaded, one photo taken. *)
Definition captured : list Event :=
  [Settle 0 oneFace; Settle 0 oneFace; Settle 0 oneFace;
   Press onTakePicture oneFace; Settle 0 oneFace].

(** ... and one detection run that found a face. *)
Definition detected : list Event :=
  captured ++ [Press onDetectFaces oneFace; Settle 0 oneFace; Settle 0 oneFace].

(** ** Further predicates *)

(** The setters of the mount effect, and those of the handlers. *)
Definition isStartupSetter (c : Effect) : bool :=
  match c with
  | setHasPermission _ | setIsTfReady _ | setModel _ => true
  | _ => false
  end.
Definition isScreenSetter (c : Effect) : bool :=
  match c with
  | setImage _ | setDetections _ | setIsLoading _ => true
  | _ => false
  end.
Definition isLoadingSetter (c : Effect) : bool :=
  match c with setIsLoading _ => true | _ => false end.

(** The three pieces of state the mount effect sets. *)
Definition startupState (st : State) : option bool * bool * option Model :=
  (hasPermission st, isTfReady st, model st).

(** The calls that occur in the body of [detectFaces]. *)
Definition isDetectionCall (c : Effect) : bool :=
  match c with
  | setIsLoading _ | setDetections _ | console_error _ _ => true
  | _ => false
  end.

(** The state after a list of calls, oldest first. *)
Definition replay (cs : list Effect) (st : State) : State :=
  fold_left (fun st c => apply c st) cs st.

(** [finish ok p]: whenever [p] comes to an end, the last value it gave to
    [isLoading] is [false]; [ok] tells whether that already holds when [p]
    starts.  After an [await] the flag may have been set by others, so the
    rest has to clear it by itself. *)
Fixpoint finish (ok : bool) {A} (p : Async A) : Prop :=
  match p with
  | Ret _ | Throw _ => ok = true
  | Do c k => finish (match c with setIsLoading b => negb b | _ => ok end) k
  | Call e k => forall out, finish ok (k out)
  | Await e k => forall out, finish false (k out)
  | ReadIsMounted k => forall b, finish ok (k b)
  end.

(** A task of a "Detect Faces" press that will clear [isLoading]. *)
Definition detecting (t : Task) : Prop :=
  origin t = FromPress onDetectFaces /\ forall out, finish false (resume t out).

(** A prediction with its landmark array cut after the fifth entry. *)
Definition firstFive (p : Prediction.t) : Prediction.t :=
  {| Prediction.probability := Prediction.probability p;
     Prediction.topLeft := Prediction.topLeft p;
     Prediction.bottomRight := Prediction.bottomRight p;
     Prediction.landmarks := firstn 5 (Prediction.landmarks p) |}.

(** Second invariant of the running component: who may call which setter. *)
Record Inv2 (s : Sys) : Prop := {
  (** the handlers never call a setter of the mount effect *)
  inv_handlers : Forall (fun t => origin t <> FromMountEffect ->
                                  forall out, avoids isStartupSetter (resume t out))
                        (tasks s);
  (** the mount effect never calls a setter of the handlers *)
  inv_startup : Forall (fun t => origin t = FromMountEffect ->
                                 forall out, avoids isScreenSetter (resume t out))
                       (tasks s);
  (** without a granted permission only the mount effect is in flight *)
  inv_idle : hasPermission (state s) <> Some true ->
             Forall (fun t => origin t = FromMountEffect) (tasks s)
             /\ detections (state s) = [] /\ isLoading (state s) = false;
  (** a task either leaves [isLoading] alone or will clear it *)
  inv_loading_tasks : Forall (fun t => (forall out, avoids isLoadingSetter (resume t out))
                                       \/ detecting t)
                             (tasks s);
  (** a set [isLoading] has a detection in flight behind it *)
  inv_loading : isLoading (state s) = true ->
                exists t, In t (tasks s) /\ detecting t
}.

(** How far the start-up has come: 0 nothing set, 1 the permission is
    answered, 2 the runtime is ready, 3 the model is loaded. *)
Definition stage (st : State) : nat :=
  match model st with
  | Some _ => 3
  | None =>
      if isTfReady st then 2
      else match hasPermission st with Some _ => 1 | None => 0 end
  end.

(** The start-up state is set in order. *)
Definition inOrder (st : State) : Prop :=
  (model st <> None -> isTfReady st = true)
  /\ (isTfReady st = true -> hasPermission st <> None).

(** [ordered m n p]: started at stage [n] or later with the flag [isMounted]
    at [m], [p] sets the runtime flag (to true) only from stage 1 on and the
    model only from stage 2 on. *)
Fixpoint ordered (m : bool) (n : nat) {A} (p : Async A) : Prop :=
  match p with
  | Ret _ | Throw _ => True
  | Do c k =>
      match c with
      | setHasPermission _ => ordered m (Nat.max n 1) k
      | setIsTfReady b => b = true /\ 1 <= n /\ ordered m (Nat.max n 2) k
      | setModel _ => 2 <= n /\ ordered m 3 k
      | _ => ordered m n k
      end
  | Call e k => forall out, ordered m n (k out)
  | Await e k => forall out, ordered false n (k out) /\ (m = true -> ordered true n (k out))
  | ReadIsMounted k => ordered m n (k m)
  end.

Definition taskOrdered (m : bool) (n : nat) (t : Task) : Prop :=
  forall out, ordered false n (resume t out) /\ (m = true -> ordered true n (resume t out)).

(** Third invariant of the running component: the order of the start-up. *)
Record Inv3 (s : Sys) : Prop := {
  inv_order : inOrder (state s);
  inv_ordered : Forall (taskOrdered (isMounted s) (stage (state s))) (tasks s)
}.

(** * Properties *)

(** ** Running computations *)

Lemma truthy_Some img : truthy (Some img) = true <-> img <> "".
Proof.
  unfold truthy. rewrite negb_true_iff. apply String.eqb_neq.
Qed.

Section Complete.
Variable w : Oracle.

Lemma complete_bind A B (m : Async A) (f : A -> Async B) s :
  complete w (bind m f) s =
  match complete w m s with
  | (s', Normal a) => complete w (f a) s'
  | (s', Threw err) => (s', Threw err)
  end.
Proof.
  revert s; induction m; intros s; simpl; auto.
Qed.

Lemma complete_try_catch A (m : Async A) h s :
  complete w (try_catch m h) s =
  match complete w m s with
  | (s', Normal a) => (s', Normal a)
  | (s', Threw err) => complete w (h err) s'
  end.
Proof.
  revert s; induction m; intros s; simpl; auto.
Qed.

Lemma complete_try_finally A (m : Async A) fin s :
  complete w (try_finally m fin) s =
  match complete w m s with
  | (s', r) =>
      match complete w fin s' with
      | (s'', Normal _) => (s'', r)
      | (s'', Threw err) => (s'', Threw err)
      end
  end.
Proof.
  revert s; induction m; intros s; simpl; auto.
  - rewrite complete_bind. destruct (complete w fin s) as [s' [u|e]]; reflexivity.
  - rewrite complete_bind. destruct (complete w fin s) as [s' [u|e]]; reflexivity.
Qed.

(** The [try] block of [detectFaces], outcome by outcome. *)
Lemma detectFaces_try_complete img mdl s :
  complete w (detectFaces_try img mdl) s =
  match w (readAsStringAsync img "base64") with
  | Rejected err => (s, Threw err)
  | Resolved imgB64 =>
    match w (encodeString imgB64 "base64") with
    | Rejected err => (s, Threw err)
    | Resolved raw =>
      match w (decodeJpeg raw) with
      | Rejected err => (s, Threw err)
      | Resolved tensor =>
        match w (estimateFaces mdl tensor false) with
        | Rejected err => (s, Threw err)
        | Resolved predictions =>
          match mapArray mapPrediction predictions with
          | Threw err => (s, Threw err)
          | Normal faces => (perform (setDetections faces) s, Normal tt)
          end
        end
      end
    end
  end.
Proof.
  unfold detectFaces_try, await, call; simpl.
  destruct (w (readAsStringAsync img "base64")) as [imgB64|]; simpl; auto.
  destruct (w (encodeString imgB64 "base64")) as [raw|]; simpl; auto.
  destruct (w (decodeJpeg raw)) as [tensor|]; simpl; auto.
  destruct (w (estimateFaces mdl tensor false)) as [predictions|]; simpl; auto.
  destruct predictions as [|p ps]; simpl; auto.
  destruct (andThen (mapPrediction p) _); reflexivity.
Qed.

(** A throwing [try] block has called no setter. *)
Lemma detectFaces_try_threw img mdl s err :
  snd (complete w (detectFaces_try img mdl) s) = Threw err ->
  complete w (detectFaces_try img mdl) s = (s, Threw err).
Proof.
  rewrite detectFaces_try_complete.
  repeat match goal with
         | |- context [match ?x with _ => _ end] => destruct x; simpl
         end; congruence.
Qed.

Lemma detectFaces_complete img mdl s :
  img <> "" ->
  complete w (detectFaces (Some img) (Some mdl)) s =
  let s1 := perform (setIsLoading true) s in
  match complete w (detectFaces_try img mdl) s1 with
  | (s2, Normal _) => (perform (setIsLoading false) s2, Normal tt)
  | (s2, Threw err) =>
      (perform (setIsLoading false)
         (perform (console_error "Detection Error:" err) s2), Normal tt)
  end.
Proof.
  intros Himg. unfold detectFaces, truthy.
  apply String.eqb_neq in Himg. rewrite Himg. cbn [negb].
  rewrite complete_bind. cbn [do complete].
  rewrite complete_try_finally, complete_try_catch. cbn zeta.
  destruct (complete w (detectFaces_try img mdl) (perform (setIsLoading true) s))
    as [s2 [[]|err]]; reflexivity.
Qed.
End Complete.

(** *** The isolated run is a run of the event loop *)

Lemma nth_error_last A (l : list A) a : nth_error (l ++ [a]) (List.length l) = Some a.
Proof. induction l; simpl; auto. Qed.

Lemma removeAt_last A (l : list A) a : removeAt (List.length l) (l ++ [a]) = l.
Proof. induction l; simpl; congruence. Qed.

Lemma settle_idle w n : forall s,
  fold_left exec (repeat (Settle (List.length (tasks s)) w) n) s = s.
Proof.
  induction n as [|n IH]; intros s; [reflexivity|].
  cbn [repeat fold_left exec].
  replace (nth_error (tasks s) (List.length (tasks s))) with (@None Task).
  - apply IH.
  - symmetry. apply nth_error_None. lia.
Qed.

(** Started by [advance] and resumed at each of its [await]s with no other
    event in between, a computation ends where [complete] says; a throw that
    reaches the top is an unhandled rejection. *)
Lemma complete_adequate o w (p : Async unit) : forall s n,
  awaits w (isMounted s) p <= n ->
  fold_left exec (repeat (Settle (List.length (tasks s)) w) n) (advance o w p s)
  = match complete w p s with
    | (s', Normal _) => s'
    | (s', Threw err) => reject err s'
    end.
Proof.
  induction p as [a|err|c k IH|R e k IH|R e k IH|k IH]; intros s n Hn;
    cbn [advance complete awaits] in *.
  - apply settle_idle.
  - apply (settle_idle w n (reject err s)).
  - apply (IH (perform c s) n Hn).
  - apply IH, Hn.
  - destruct n as [|n]; [lia|].
    cbn [repeat fold_left exec suspend tasks].
    rewrite nth_error_last, removeAt_last.
    cbn [origin request resume].
    replace (withTasks (tasks s) _) with s by (destruct s; reflexivity).
    apply IH. lia.
  - apply IH, Hn.
Qed.

Lemma detectFaces_awaits w m img mdl : awaits w m (detectFaces img mdl) <= 2.
Proof.
  unfold detectFaces. destruct img as [img|], mdl as [mdl|]; try (simpl; lia).
  destruct (truthy (Some img)); [|simpl; lia].
  unfold detectFaces_try, await, call.
  repeat (simpl;
          match goal with
          | |- context [settle ?x] => destruct x
          | |- context [lift ?x] => destruct x
          | |- context [if ?b then _ else _] => destruct b
          end);
    simpl; lia.
Qed.

Lemma detectFaces_returns w img mdl s :
  snd (complete w (detectFaces img mdl) s) = Normal tt.
Proof.
  unfold detectFaces. destruct img as [img|], mdl as [mdl|]; try reflexivity.
  destruct (truthy (Some img)) eqn:E; [|reflexivity].
  apply truthy_Some in E.
  pose proof (detectFaces_complete w mdl s E) as H.
  unfold detectFaces in H. apply truthy_Some in E. rewrite E in H. rewrite H.
  cbn zeta.
  destruct (complete w (detectFaces_try img mdl) _) as [s2 [[]|err]]; reflexivity.
Qed.

(** A press on "Detect Faces" followed by the completion of its two awaits
    ends where the isolated run of [detectFaces] ends. *)
Lemma detectFaces_in_event_loop s w :
  isMounted s = true ->
  shows (isButton onDetectFaces) (render (state s)) = true ->
  fold_left exec (repeat (Settle (List.length (tasks s)) w) 2)
    (exec s (Press onDetectFaces w))
  = fst (complete w (detectFaces (image (state s)) (model (state s))) s).
Proof.
  intros Hm Hb. cbn [exec]. rewrite Hm, Hb. cbn [andb handler].
  rewrite complete_adequate by apply detectFaces_awaits.
  pose proof (detectFaces_returns w (image (state s)) (model (state s)) s) as H.
  destruct (complete w (detectFaces (image (state s)) (model (state s))) s)
    as [s' r].
  simpl in H. rewrite H. reflexivity.
Qed.


(** ** The prediction mapping *)

Lemma landmarkAt_Normal name p i l :
  landmarkAt name p i = Normal l ->
  exists pt, index (Prediction.landmarks p) i = Some pt /\
             l = {| Landmark.part := name; Landmark.x := index pt 0;
                    Landmark.y := index pt 1 |}.
Proof.
  unfold landmarkAt. destruct (index _ i) as [pt|]; [|discriminate].
  intros H; injection H as <-. eauto.
Qed.

Lemma landmarkAt_defined name p i :
  i < List.length (Prediction.landmarks p) ->
  exists l, landmarkAt name p i = Normal l.
Proof.
  intros Hi. unfold landmarkAt, index.
  destruct (nth_error (Prediction.landmarks p) i) eqn:E; eauto.
  apply nth_error_None in E. lia.
Qed.

Lemma mapPrediction_Normal p d :
  mapPrediction p = Normal d ->
  Detection.class d = "Hursun" /\
  Detection.score d = index (Prediction.probability p) 0 /\
  Detection.boundingBox d = Prediction.topLeft p ++ Prediction.bottomRight p /\
  5 <= List.length (Prediction.landmarks p) /\
  Detection.landmarks d =
    map (fun '(i, name) =>
           {| Landmark.part := name; Landmark.x := coordinate p i 0;
              Landmark.y := coordinate p i 1 |})
        (combine (seq 0 5) landmarkNames).
Proof.
  unfold mapPrediction, coordinate.
  destruct (landmarkAt "left_eye" p 0) as [l0|] eqn:E0; [|discriminate].
  destruct (landmarkAt "right_eye" p 1) as [l1|] eqn:E1; [|discriminate].
  destruct (landmarkAt "nose" p 2) as [l2|] eqn:E2; [|discriminate].
  destruct (landmarkAt "mouth_left" p 3) as [l3|] eqn:E3; [|discriminate].
  destruct (landmarkAt "mouth_right" p 4) as [l4|] eqn:E4; [|discriminate].
  simpl. intros H; injection H as <-. simpl.
  apply landmarkAt_Normal in E0 as (p0 & H0 & ->).
  apply landmarkAt_Normal in E1 as (p1 & H1 & ->).
  apply landmarkAt_Normal in E2 as (p2 & H2 & ->).
  apply landmarkAt_Normal in E3 as (p3 & H3 & ->).
  apply landmarkAt_Normal in E4 as (p4 & H4 & ->).
  rewrite H0, H1, H2, H3, H4.
  repeat split; auto.
  assert (4 < List.length (Prediction.landmarks p)); [|lia].
  apply nth_error_Some. unfold index in H4. congruence.
Qed.

Lemma mapPrediction_defined p :
  5 <= List.length (Prediction.landmarks p) ->
  exists d, mapPrediction p = Normal d.
Proof.
  intros H. unfold mapPrediction.
  destruct (@landmarkAt_defined "left_eye" p 0) as [l0 ->]; [lia|].
  destruct (@landmarkAt_defined "right_eye" p 1) as [l1 ->]; [lia|].
  destruct (@landmarkAt_defined "nose" p 2) as [l2 ->]; [lia|].
  destruct (@landmarkAt_defined "mouth_left" p 3) as [l3 ->]; [lia|].
  destruct (@landmarkAt_defined "mouth_right" p 4) as [l4 ->]; [lia|].
  simpl. eauto.
Qed.

Lemma mapArray_Normal A B (f : A -> Completion B) arr bs :
  mapArray f arr = Normal bs -> Forall2 (fun a b => f a = Normal b) arr bs.
Proof.
  revert bs; induction arr as [|a rest IH]; simpl; intros bs H.
  - injection H as <-. constructor.
  - destruct (f a) as [b|] eqn:Ea; [|discriminate]. simpl in H.
    destruct (mapArray f rest) as [bs'|]; [|discriminate]. simpl in H.
    injection H as <-. constructor; auto.
Qed.

Lemma mapArray_defined A B (f : A -> Completion B) arr :
  Forall (fun a => exists b, f a = Normal b) arr ->
  exists bs, mapArray f arr = Normal bs.
Proof.
  induction 1 as [|a rest [b Hb] _ [bs Hbs]]; simpl; eauto.
  rewrite Hb, Hbs. simpl. eauto.
Qed.

(** When every host call resolves and each prediction carries at least
    five landmark entries, the [try] block of [detectFaces] ends normally. *)
Lemma detectFaces_try_succeeds (w : Oracle) img mdl s imgB64 raw tensor predictions :
  w _ (readAsStringAsync img "base64") = Resolved imgB64 ->
  w _ (encodeString imgB64 "base64") = Resolved raw ->
  w _ (decodeJpeg raw) = Resolved tensor ->
  w _ (estimateFaces mdl tensor false) = Resolved predictions ->
  Forall (fun p => 5 <= List.length (Prediction.landmarks p)) predictions ->
  snd (complete w (detectFaces_try img mdl) s) = Normal tt.
Proof.
  intros H1 H2 H3 H4 H5. rewrite detectFaces_try_complete, H1, H2, H3, H4.
  destruct (@mapArray_defined _ _ mapPrediction predictions) as [faces ->].
  - eapply Forall_impl; [|exact H5]. intros p. apply mapPrediction_defined.
  - reflexivity.
Qed.

(** ** What is on screen *)

Lemma list_sum_cons a l : list_sum (a :: l) = a + list_sum l.
Proof. reflexivity. Qed.

Lemma list_sum_nil : list_sum [] = 0.
Proof. reflexivity. Qed.

(** Unfold [count] over the fixed part of a tree. *)
Ltac count_tree :=
  cbn [count map]; rewrite ?list_sum_cons, ?list_sum_nil; cbn [count map].

Section Counting.
Variable f : Tag -> bool.

Lemma count_landmarkItem l :
  count f (landmarkItem l) = if f (Text "landmarkItem") then 1 else 0.
Proof.
  unfold landmarkItem, numOrUndefined.
  destruct (Landmark.x l), (Landmark.y l); count_tree; lia.
Qed.

Lemma count_landmarkItems ls :
  list_sum (map (count f) (map landmarkItem ls)) =
  List.length ls * (if f (Text "landmarkItem") then 1 else 0).
Proof.
  induction ls as [|l ls IH]; [reflexivity|].
  cbn [map List.length]. rewrite list_sum_cons, IH, count_landmarkItem. lia.
Qed.

Lemma count_detectionItem d :
  count f (detectionItem d) =
  (if f (View "detectionItemContainer") then 1 else 0)
  + (if f (Text "detectionItem") then 1 else 0)
  + (if f (Text "landmarksText") then 1 else 0)
  + List.length (Detection.landmarks d) * (if f (Text "landmarkItem") then 1 else 0).
Proof.
  unfold detectionItem. count_tree.
  rewrite count_landmarkItems. lia.
Qed.

(** A tag test that answers no on the four tags of a detection entry
    finds nothing in the list of entries. *)
Hypothesis no_container : f (View "detectionItemContainer") = false.
Hypothesis no_item : f (Text "detectionItem") = false.
Hypothesis no_heading : f (Text "landmarksText") = false.
Hypothesis no_landmark : f (Text "landmarkItem") = false.

Lemma count_detectionItems_none ds :
  list_sum (map (count f) (map detectionItem ds)) = 0.
Proof.
  induction ds as [|d ds IH]; [reflexivity|].
  cbn [map]. rewrite list_sum_cons, IH, count_detectionItem.
  rewrite no_container, no_item, no_heading, no_landmark. lia.
Qed.
End Counting.

Lemma count_detectionItems ds :
  list_sum (map (count isDetectionItem) (map detectionItem ds)) = List.length ds.
Proof.
  induction ds as [|d ds IH]; [reflexivity|].
  cbn [map List.length]. rewrite list_sum_cons, IH, count_detectionItem.
  simpl. lia.
Qed.

Lemma ltb_length_nil A (l : list A) :
  (0 <? List.length l)%nat = false -> l = [].
Proof. destruct l; [reflexivity|discriminate]. Qed.

(** One entry per detection in the review view. *)
Lemma reviewView_detectionItems img st :
  count isDetectionItem (reviewView img st) = List.length (detections st).
Proof.
  unfold reviewView.
  destruct (0 <? List.length (detections st))%nat eqn:E.
  - count_tree. rewrite count_detectionItems.
    destruct (isLoading st); simpl; lia.
  - rewrite (ltb_length_nil _ E). destruct (isLoading st); reflexivity.
Qed.

Lemma reviewView_indicator img st :
  shows isActivityIndicator (reviewView img st) = isLoading st.
Proof.
  unfold shows, reviewView.
  destruct (0 <? List.length (detections st))%nat eqn:E.
  - count_tree.
    rewrite (@count_detectionItems_none isActivityIndicator
               eq_refl eq_refl eq_refl eq_refl).
    destruct (isLoading st); reflexivity.
  - destruct (isLoading st); reflexivity.
Qed.

Lemma reviewView_noFace img st :
  shows isNoFaceMessage (reviewView img st) =
  match detections st with
  | [] => negb (isLoading st)
  | _ :: _ => false
  end.
Proof.
  unfold shows, reviewView.
  destruct (0 <? List.length (detections st))%nat eqn:E.
  - count_tree.
    rewrite (@count_detectionItems_none isNoFaceMessage
               eq_refl eq_refl eq_refl eq_refl).
    destruct (detections st); [discriminate|].
    destruct (isLoading st); reflexivity.
  - rewrite (ltb_length_nil _ E). destruct (isLoading st); reflexivity.
Qed.

Lemma reviewView_no_camera img st :
  count isCameraView (reviewView img st) = 0.
Proof.
  unfold reviewView.
  destruct (0 <? List.length (detections st))%nat eqn:E.
  - count_tree.
    rewrite (@count_detectionItems_none isCameraView
               eq_refl eq_refl eq_refl eq_refl).
    destruct (isLoading st); reflexivity.
  - destruct (isLoading st); reflexivity.
Qed.

(** With permission granted and an image in the state, the screen is the
    review view. *)
Lemma render_review st img :
  hasPermission st = Some true -> image st = Some img -> img <> "" ->
  render st = Elem (View "container") [JsFalse; reviewView img st].
Proof.
  intros Hp Hi Hne. unfold render. rewrite Hp, Hi.
  apply String.eqb_neq in Hne. unfold truthy. rewrite Hne. reflexivity.
Qed.

(** With permission granted and no image, the screen is the camera. *)
Lemma render_camera st :
  hasPermission st = Some true -> truthy (image st) = false ->
  shows isCameraView (render st) = true
  /\ count isDetectionItem (render st) = 0
  /\ shows isNoFaceMessage (render st) = false
  /\ shows isActivityIndicator (render st) = false.
Proof.
  intros Hp Hi. unfold render. rewrite Hp, Hi.
  destruct (image st) as [img|]; [|repeat split; reflexivity].
  unfold truthy in Hi. apply negb_false_iff in Hi. rewrite Hi.
  repeat split; reflexivity.
Qed.

(** Without a granted permission nothing of the screen proper is shown. *)
Lemma render_without_permission st f :
  hasPermission st <> Some true ->
  f (View "") = false -> f (Text "") = false ->
  count f (render st) = 0.
Proof.
  intros Hp Hv Ht. unfold render.
  destruct (hasPermission st) as [[|]|]; [congruence| |]; simpl.
  - rewrite Ht. reflexivity.
  - rewrite Hv. reflexivity.
Qed.

(** A button on screen means the permission was granted. *)
Lemma button_needs_permission st h :
  shows (isButton h) (render st) = true -> hasPermission st = Some true.
Proof.
  intros H. destruct (hasPermission st) as [[|]|] eqn:E; auto.
  - unfold shows in H.
    rewrite render_without_permission in H; [discriminate|congruence|auto..].
  - unfold shows in H.
    rewrite render_without_permission in H; [discriminate|congruence|auto..].
Qed.

(** The review buttons are on screen only with an image in the state. *)
Lemma review_button_needs_image st h :
  h <> onTakePicture ->
  shows (isButton h) (render st) = true -> truthy (image st) = true.
Proof.
  intros Hh H. pose proof (button_needs_permission _ _ H) as Hp.
  destruct (truthy (image st)) eqn:Ht; auto.
  unfold render in H. rewrite Hp, Ht in H.
  destruct (image st) as [img|].
  - unfold truthy in Ht. apply negb_false_iff in Ht. rewrite Ht in H.
    destruct h; try congruence; discriminate.
  - destruct h; try congruence; discriminate.
Qed.

(** The loading indicator and the no-face message exclude each other, in
    every state. *)
Lemma indicator_excludes_noFace st :
  shows isActivityIndicator (render st) && shows isNoFaceMessage (render st) = false.
Proof.
  destruct (hasPermission st) as [[|]|] eqn:Hp.
  - destruct (truthy (image st)) eqn:Ht.
    + destruct (image st) as [img|] eqn:Hi; [|discriminate].
      apply truthy_Some in Ht.
      rewrite (render_review _ Hp Hi Ht).
      pose proof (reviewView_indicator img st) as H1.
      pose proof (reviewView_noFace img st) as H2.
      unfold shows in *. count_tree. cbn [isActivityIndicator isNoFaceMessage].
      rewrite !Nat.add_0_r. cbn [Nat.add].
      rewrite H1, H2.
      destruct (detections st), (isLoading st); reflexivity.
    + destruct (render_camera _ Hp Ht) as (_ & _ & -> & ->). reflexivity.
  - unfold render. rewrite Hp. reflexivity.
  - unfold render. rewrite Hp. reflexivity.
Qed.

(** ** The overlay *)

Lemma withBuffer_withBuffer g b1 b2 :
  withBuffer (withBuffer g b1) b2 = withBuffer g b2.
Proof. reflexivity. Qed.

(** Drawing a list of landmarks appends one marker per landmark to the
    buffer and touches nothing else of the surface. *)
Lemma draw_landmarks ls : forall ctx,
  gl (fold_left ctxStep (flat_map drawLandmark ls) ctx) =
  withBuffer (gl ctx) (buffer (gl ctx) ++ map marker ls).
Proof.
  induction ls as [|l ls IH]; intros ctx.
  - simpl. rewrite app_nil_r. destruct ctx as [[] ? ?]; reflexivity.
  - cbn [flat_map]. rewrite fold_left_app, IH.
    cbn [drawLandmark fold_left ctxStep gl path fillStyle app].
    rewrite withBuffer_withBuffer. cbn [withBuffer buffer map].
    rewrite <- app_assoc. reflexivity.
Qed.

Lemma draw_detections ds :
  flat_map (fun d => flat_map drawLandmark (Detection.landmarks d)) ds =
  flat_map drawLandmark (flat_map Detection.landmarks ds).
Proof.
  induction ds as [|d ds IH]; [reflexivity|].
  cbn [flat_map]. rewrite flat_map_app, IH. reflexivity.
Qed.

Lemma markers_flat ds : markers ds = map marker (flat_map Detection.landmarks ds).
Proof.
  unfold markers. induction ds as [|d ds IH]; [reflexivity|].
  cbn [flat_map]. rewrite map_app, IH. reflexivity.
Qed.

Lemma markers_length ds :
  Forall (fun d => List.length (Detection.landmarks d) = 5) ds ->
  List.length (markers ds) = 5 * List.length ds.
Proof.
  unfold markers. induction 1 as [|d ds Hd _ IH]; [reflexivity|].
  cbn [flat_map List.length]. rewrite length_app, length_map, Hd, IH. lia.
Qed.

(** With detections in the state the callback leaves exactly their
    markers on the surface, whatever was there before. *)
Lemma onContextCreate_redraws ds g :
  ds <> [] ->
  onContextCreate ds g =
  {| drawingBufferWidth := drawingBufferWidth g;
     drawingBufferHeight := drawingBufferHeight g;
     buffer := markers ds; presented := markers ds |}.
Proof.
  intros Hne. unfold onContextCreate, onContextCreate_calls.
  destruct ds as [|d ds]; [congruence|].
  cbn [List.length Nat.ltb Nat.leb]. rewrite draw_detections.
  cbn [fold_left]. rewrite fold_left_app. cbn [fold_left ctxStep].
  rewrite draw_landmarks.
  cbn [new_Expo2DContext gl Nat.eqb andb]. rewrite !Nat.leb_refl.
  rewrite markers_flat. reflexivity.
Qed.

Lemma onContextCreate_empty g : onContextCreate [] g = g.
Proof. reflexivity. Qed.

(** ** What a computation can call *)

Section Avoids.
Variable f : Effect -> bool.

Lemma avoids_bind A B (m : Async A) (k : A -> Async B) :
  avoids f m -> (forall a, avoids f (k a)) -> avoids f (bind m k).
Proof. induction m; simpl; intuition auto. Qed.

Lemma avoids_try_catch A (m : Async A) h :
  avoids f m -> (forall err, avoids f (h err)) -> avoids f (try_catch m h).
Proof. induction m; simpl; intuition auto. Qed.

Lemma avoids_try_finally A (m : Async A) fin :
  avoids f m -> avoids f fin -> avoids f (try_finally m fin).
Proof.
  induction m; simpl; intuition auto; apply avoids_bind; simpl; auto.
Qed.

Lemma avoids_settle R (out : Outcome R) : avoids f (settle out).
Proof. destruct out; exact I. Qed.

Lemma avoids_lift A (r : Completion A) : avoids f (lift r).
Proof. destruct r; exact I. Qed.

Lemma avoids_await R (e : Ext R) : avoids f (await e).
Proof. intros out. apply avoids_settle. Qed.

Lemma avoids_call R (e : Ext R) : avoids f (call e).
Proof. intros out. apply avoids_settle. Qed.

Lemma avoids_once A (p : Async A) : avoids f p -> once f p.
Proof.
  induction p; simpl; auto.
  intros [Hc Hk]. rewrite Hc. auto.
Qed.

Hypothesis f_isLoading : forall b, f (setIsLoading b) = false.
Hypothesis f_detections : forall ds, f (setDetections ds) = false.
Hypothesis f_console : forall msg err, f (console_error msg err) = false.

Lemma avoids_detectFaces_try img mdl : avoids f (detectFaces_try img mdl).
Proof.
  unfold detectFaces_try.
  apply avoids_bind; [apply avoids_await|intros imgB64].
  apply avoids_bind; [apply avoids_call|intros rawImageData].
  apply avoids_bind; [apply avoids_call|intros imageTensor].
  apply avoids_bind; [apply avoids_await|intros predictions].
  destruct (0 <? List.length predictions)%nat.
  - apply avoids_bind; [apply avoids_lift|]. simpl; auto.
  - simpl; auto.
Qed.

Lemma avoids_detectFaces img mdl : avoids f (detectFaces img mdl).
Proof.
  unfold detectFaces. destruct img as [img|], mdl as [mdl|]; try exact I.
  destruct (truthy (Some img)); [|exact I].
  apply avoids_bind; [simpl; auto|intros _].
  apply avoids_try_finally; [apply avoids_try_catch|].
  - apply avoids_detectFaces_try.
  - simpl; auto.
  - simpl; auto.
Qed.
End Avoids.

Lemma handler_avoids_permission h st :
  avoids isPermissionSetter (handler h st).
Proof.
  destruct h; simpl.
  - unfold takePicture. destruct (cameraRef_current st); [|exact I].
    simpl. intros [photo|err]; simpl; auto.
  - apply avoids_detectFaces; reflexivity.
  - auto.
Qed.

Ltac step_async :=
  repeat (simpl; intros;
          try match goal with
              | out : Outcome _ |- _ => destruct out
              | b : bool |- _ => destruct b
              end;
          try split; try reflexivity; try exact I; try discriminate).

Lemma mountEffect_once : once isPermissionSetter mountEffect.
Proof. unfold mountEffect, await, readIsMounted. step_async. Qed.

Lemma mountEffect_avoids_image : avoids isImageSetter mountEffect.
Proof. unfold mountEffect, await, readIsMounted. step_async. Qed.

Lemma mountEffect_guarded : guarded true mountEffect.
Proof. unfold mountEffect, await, readIsMounted. step_async. Qed.

(** ** Running up to the next await *)

Lemma apply_keeps_permission c st :
  isPermissionSetter c = false -> hasPermission (apply c st) = hasPermission st.
Proof. destruct c; simpl; congruence. Qed.

Lemma apply_keeps_image c st :
  isImageSetter c = false -> image (apply c st) = image st.
Proof. destruct c; simpl; congruence. Qed.

Lemma apply_not_setter c st : is_setter c = false -> apply c st = st.
Proof. destruct c; simpl; congruence. Qed.

Section Advance.
Variables (o : Origin) (w : Oracle).

(** [advance] adds at most one task, of the given origin, and leaves the
    flag alone. *)
Lemma advance_shape p : forall s,
  isMounted (advance o w p s) = isMounted s /\
  exists new, tasks (advance o w p s) = tasks s ++ new /\
              List.length new <= 1 /\
              Forall (fun t => origin t = o) new.
Proof.
  induction p as [a|err|c k IH|R e k IH|R e k IH|k IH]; intros s; simpl.
  - split; auto. exists []. rewrite app_nil_r. auto.
  - split; auto. exists []. rewrite app_nil_r. auto.
  - apply (IH (perform c s)).
  - apply IH.
  - split; auto. eexists [_]. repeat split; auto.
  - apply IH.
Qed.

Section Field.
Variable f : Effect -> bool.
Variables (X : Type) (field : State -> X).
Hypothesis field_kept : forall c st, f c = false -> field (apply c st) = field st.

(** A computation that avoids the setter of a field leaves the field
    alone, and so do the tasks it suspends as. *)
Lemma advance_avoids p : forall s,
  avoids f p ->
  field (state (advance o w p s)) = field (state s) /\
  (tasksAll (avoids f) (tasks s) ->
   tasksAll (avoids f) (tasks (advance o w p s))).
Proof.
  induction p as [a|err|c k IH|R e k IH|R e k IH|k IH]; intros s Hp; simpl in *.
  - auto.
  - auto.
  - destruct Hp as [Hc Hk]. destruct (IH (perform c s) Hk) as [H1 H2].
    split; [rewrite H1; simpl; auto|exact H2].
  - apply IH, Hp.
  - split; auto. intros Hts. apply Forall_app. split; auto.
  - apply IH, Hp.
Qed.

(** A computation that sets the field at most once: while the field is
    untouched the suspended task still sets it at most once, afterwards
    it avoids the setter. *)
Lemma advance_once p : forall s,
  once f p ->
  (field (state (advance o w p s)) = field (state s) /\
   (tasksAll (once f) (tasks s) ->
    tasksAll (once f) (tasks (advance o w p s))))
  \/ (tasksAll (avoids f) (tasks s) ->
      tasksAll (avoids f) (tasks (advance o w p s))).
Proof.
  induction p as [a|err|c k IH|R e k IH|R e k IH|k IH]; intros s Hp; simpl in *.
  - auto.
  - auto.
  - destruct (f c) eqn:Hc.
    + right. apply (advance_avoids k (perform c s) Hp).
    + destruct (IH (perform c s) Hp) as [[H1 H2]|H]; [left|right; exact H].
      split; [rewrite H1; simpl; auto|exact H2].
  - apply IH, Hp.
  - left. split; auto. intros Hts. apply Forall_app. split; auto.
  - apply IH, Hp.
Qed.
End Field.

Lemma advance_guarded p : forall s,
  guarded (isMounted s) p ->
  (isMounted s = false ->
   state (advance o w p s) = state s /\
   setterCalls (advance o w p s) = setterCalls s) /\
  (Forall (taskGuarded (isMounted s)) (tasks s) ->
   Forall (taskGuarded (isMounted s)) (tasks (advance o w p s))).
Proof.
  induction p as [a|err|c k IH|R e k IH|R e k IH|k IH]; intros s Hp; simpl in *.
  - auto.
  - auto.
  - destruct Hp as [Hc Hk]. destruct (IH (perform c s) Hk) as [H1 H2].
    split; [|exact H2].
    intros Hm. destruct (H1 Hm) as [H3 H4]. rewrite H3, H4.
    destruct (is_setter c) eqn:Hs; [rewrite Hc in Hm; [discriminate|reflexivity]|].
    unfold setterCalls. simpl. rewrite filter_app. simpl. rewrite Hs, app_nil_r.
    rewrite apply_not_setter; auto.
  - apply IH, Hp.
  - split; auto. intros Hts. apply Forall_app. split; auto.
    constructor; [|constructor]. intros _. exact Hp.
  - apply IH, Hp.
Qed.
End Advance.

Lemma Forall_removeAt A (P : A -> Prop) l : forall i,
  Forall P l -> Forall P (removeAt i l).
Proof.
  induction l as [|a l IH]; intros i H; [destruct i; exact H|].
  inversion H; subst. destruct i; simpl; auto.
Qed.

Lemma removeAt_length A (l : list A) : forall i a,
  nth_error l i = Some a -> List.length l = S (List.length (removeAt i l)).
Proof.
  induction l as [|b l IH]; intros [|i] a H; simpl in *; try discriminate; auto.
  erewrite IH; eauto.
Qed.

Lemma taskGuarded_weaken m t : taskGuarded m t -> taskGuarded false t.
Proof.
  intros H Ho out. split; [apply (H Ho)|discriminate].
Qed.

Lemma taskGuarded_resume m t out :
  taskGuarded m t -> origin t = FromMountEffect -> guarded m (resume t out).
Proof.
  intros H Ho. destruct (H Ho out) as [Hf Ht]. destruct m; auto.
Qed.

Lemma Inv_mount : Inv mount.
Proof.
  split; simpl.
  - congruence.
  - intros _. split; [lia|]. constructor; [|constructor]. simpl.
    intros out. apply (mountEffect_once out).
  - intros _. split; [reflexivity|]. constructor; [|constructor]. simpl.
    intros out. apply (mountEffect_avoids_image out).
  - constructor; [|constructor]. intros _ out. simpl.
    apply (mountEffect_guarded out).
Qed.

(** Tasks added by a handler are not the mount effect's. *)
Lemma guard_after_press h w p s :
  Forall (taskGuarded (isMounted s)) (tasks s) ->
  Forall (taskGuarded (isMounted (advance (FromPress h) w p s)))
         (tasks (advance (FromPress h) w p s)).
Proof.
  intros H. destruct (advance_shape (FromPress h) w p s) as [-> (new & -> & _ & Hn)].
  apply Forall_app. split; auto.
  eapply Forall_impl; [|exact Hn]. intros t Ht Ho. congruence.
Qed.

Lemma Inv_press s h w :
  Inv s ->
  isMounted s && shows (isButton h) (render (state s)) = true ->
  Inv (advance (FromPress h) w (handler h (state s)) s)
  /\ hasPermission (state (advance (FromPress h) w (handler h (state s)) s))
     = Some true.
Proof.
  intros HI He. apply andb_prop in He as [_ Hb].
  pose proof (button_needs_permission _ _ Hb) as Hp.
  destruct (advance_avoids (FromPress h) w isPermissionSetter hasPermission
              apply_keeps_permission (handler h (state s)) s
              (handler_avoids_permission h (state s))) as [Hf Ht].
  rewrite Hp in Hf. split; [|exact Hf].
  split.
  - intros _. apply Ht. apply (inv_known HI). congruence.
  - congruence.
  - congruence.
  - apply guard_after_press, (inv_guard HI).
Qed.

Lemma Inv_settle s i w t :
  Inv s ->
  nth_error (tasks s) i = Some t ->
  let s0 := withTasks (removeAt i (tasks s)) s in
  let s' := advance (origin t) w (resume t (w _ (request t))) s0 in
  Inv s' /\
  (hasPermission (state s) <> None ->
   hasPermission (state s') = hasPermission (state s)).
Proof.
  intros HI Hn s0 s'.
  set (p := resume t (w _ (request t))) in *.
  assert (Hin : In t (tasks s)) by (eapply nth_error_In; eauto).
  (* the guard *)
  assert (Hguard : Forall (taskGuarded (isMounted s')) (tasks s')).
  { assert (H0 : Forall (taskGuarded (isMounted s0)) (tasks s0))
      by (apply Forall_removeAt, (inv_guard HI)).
    destruct (advance_shape (origin t) w p s0) as [Hm (new & Hnew & _ & Ho)].
    destruct (origin t) eqn:Eo.
    - fold s' in Hm. rewrite Hm.
      apply (advance_guarded FromMountEffect w p s0); auto.
      pose proof (inv_guard HI) as Hg. rewrite Forall_forall in Hg.
      apply (@taskGuarded_resume _ _ _ (Hg t Hin) Eo).
    - fold s' in Hm, Hnew. rewrite Hm, Hnew. apply Forall_app. split; auto.
      eapply Forall_impl; [|exact Ho]. intros t' Ht' Hc. congruence. }
  destruct (hasPermission (state s)) as [b|] eqn:Hp.
  - (* permission known: the task avoids its setter *)
    assert (Hk : tasksAll (avoids isPermissionSetter) (tasks s))
      by (apply (inv_known HI); congruence).
    assert (Hpt : avoids isPermissionSetter p).
    { unfold tasksAll in Hk. rewrite Forall_forall in Hk. apply (Hk t Hin). }
    destruct (advance_avoids (origin t) w isPermissionSetter hasPermission
                apply_keeps_permission p s0 Hpt) as [Hf Ht].
    fold s' in Hf, Ht. simpl in Hf. rewrite Hp in Hf.
    split; [|intros _; exact Hf].
    split; [| | |exact Hguard].
    + intros _. apply Ht. apply Forall_removeAt, Hk.
    + congruence.
    + intros Hb. rewrite Hf in Hb.
      assert (Hb' : hasPermission (state s) <> Some true) by congruence.
      destruct (inv_image HI Hb') as [Hi Hti].
      assert (Hit : avoids isImageSetter p).
      { unfold tasksAll in Hti. rewrite Forall_forall in Hti. apply (Hti t Hin). }
      destruct (advance_avoids (origin t) w isImageSetter image
                  apply_keeps_image p s0 Hit) as [Hfi Htt].
      fold s' in Hfi, Htt. split; [rewrite Hfi; exact Hi|].
      apply Htt. apply Forall_removeAt, Hti.
  - (* permission unknown: the task is the only one in flight *)
    split; [|congruence].
    destruct (inv_unknown HI Hp) as [Hlen Hon].
    assert (Hb' : hasPermission (state s) <> Some true) by congruence.
    destruct (inv_image HI Hb') as [Hi Hti].
    assert (Hempty : tasks s0 = []).
    { simpl. pose proof (removeAt_length _ _ Hn) as Hl.
      destruct (removeAt i (tasks s)); [reflexivity|simpl in Hl; lia]. }
    assert (Hpt : once isPermissionSetter p).
    { unfold tasksAll in Hon. rewrite Forall_forall in Hon. apply (Hon t Hin). }
    assert (Hit : avoids isImageSetter p).
    { unfold tasksAll in Hti. rewrite Forall_forall in Hti. apply (Hti t Hin). }
    destruct (advance_avoids (origin t) w isImageSetter image
                apply_keeps_image p s0 Hit) as [Hfi Htt].
    fold s' in Hfi, Htt.
    destruct (advance_shape (origin t) w p s0) as [_ (new & Hnew & Hlen' & _)].
    fold s' in Hnew. rewrite Hempty in Hnew. simpl in Hnew.
    assert (Hnil : forall Q, tasksAll Q (tasks s0))
      by (intros Q; rewrite Hempty; constructor).
    destruct (advance_once (origin t) w isPermissionSetter hasPermission
                apply_keeps_permission p s0 Hpt) as [[Hf Ht]|Ht];
      fold s' in Ht.
    + fold s' in Hf. simpl in Hf. rewrite Hp in Hf.
      split; [| | |exact Hguard].
      * congruence.
      * intros _. split; [rewrite Hnew; exact Hlen'|apply Ht, Hnil].
      * intros _. split; [rewrite Hfi; exact Hi|apply Htt, Hnil].
    + split; [| | |exact Hguard].
      * intros _. apply Ht, Hnil.
      * intros _. split; [rewrite Hnew; exact Hlen'|].
        eapply Forall_impl; [|apply Ht, Hnil].
        intros t' H out. apply avoids_once, H.
      * intros _. split; [rewrite Hfi; exact Hi|apply Htt, Hnil].
Qed.

(** Every turn of the event loop keeps the invariant and a known
    permission. *)
Lemma Inv_exec s ev :
  Inv s ->
  Inv (exec s ev) /\
  (hasPermission (state s) <> None ->
   hasPermission (state (exec s ev)) = hasPermission (state s)).
Proof.
  intros HI. destruct ev as [h w|i w|]; simpl.
  - destruct (isMounted s && shows (isButton h) (render (state s))) eqn:He; auto.
    destruct (Inv_press h w HI He) as [H1 H2]. split; auto.
    intros _. rewrite H2. symmetry.
    apply andb_prop in He as [_ Hb]. apply (button_needs_permission _ _ Hb).
  - destruct (nth_error (tasks s) i) as [t|] eqn:Hn; auto.
    apply (Inv_settle i w HI Hn).
  - split; auto. destruct HI as [H1 H2 H3 H4]. split; simpl; auto.
    eapply Forall_impl; [|exact H4]. intros t. apply taskGuarded_weaken.
Qed.

Lemma Inv_fold evs : forall s,
  Inv s ->
  Inv (fold_left exec evs s) /\
  (hasPermission (state s) <> None ->
   hasPermission (state (fold_left exec evs s)) = hasPermission (state s)).
Proof.
  induction evs as [|ev evs IH]; intros s HI; simpl; auto.
  destruct (Inv_exec ev HI) as [H1 H2].
  destruct (IH _ H1) as [H3 H4]. split; auto.
  intros Hp. rewrite H4; auto. rewrite H2; auto.
Qed.

Lemma Inv_run evs : Inv (run evs).
Proof. apply Inv_fold, Inv_mount. Qed.

(** In a running component an image in the state means the permission was
    granted. *)
Lemma image_needs_permission evs :
  truthy (image (state (run evs))) = true ->
  hasPermission (state (run evs)) = Some true.
Proof.
  intros Ht. destruct (hasPermission (state (run evs))) as [[|]|] eqn:Hp; auto.
  - destruct (inv_image (Inv_run evs)) as [Hi _]; [congruence|].
    rewrite Hi in Ht. discriminate.
  - destruct (inv_image (Inv_run evs)) as [Hi _]; [congruence|].
    rewrite Hi in Ht. discriminate.
Qed.

(** * The claims *)

(** C1 (as stated, refuted): pressing "Capture Another Photo" after a
    detection run that found a face clears the image, but the detection set
    still holds the face. *)
Lemma captureAnother_keeps_detections :
  let before := run detected in
  let after := exec before (Press onCaptureAnother oneFace) in
  shows (isButton onCaptureAnother) (render (state before)) = true
  /\ image (state after) = None
  /\ List.length (detections (state after)) = 1
  /\ detections (state after) <> [].
Proof.
  vm_compute. repeat split; discriminate.
Qed.

(** C1 (amended): "Capture Another Photo" makes the single call
    [setImage(null)]: the image handle is cleared, the detection set is left
    as it was, and the screen is back in camera view, which lists no
    detection. *)
Theorem captureAnother_clears_image : forall (s : Sys) (w : Oracle),
  isMounted s = true ->
  shows (isButton onCaptureAnother) (render (state s)) = true ->
  let s' := exec s (Press onCaptureAnother w) in
  history s' = history s ++ [setImage None]
  /\ image (state s') = None
  /\ detections (state s') = detections (state s)
  /\ shows isCameraView (render (state s')) = true
  /\ count isDetectionItem (render (state s')) = 0.
Proof.
  intros s w Hm Hb s'. subst s'. simpl. rewrite Hm, Hb. simpl.
  pose proof (button_needs_permission _ _ Hb) as Hp.
  repeat split.
  - apply render_camera; simpl; auto.
  - apply render_camera; simpl; auto.
Qed.

Lemma captureAnother_clears_image_witness :
  let s := run detected in
  let s' := exec s (Press onCaptureAnother oneFace) in
  history s' = history s ++ [setImage None]
  /\ image (state s') = None
  /\ detections (state s') = detections (state s)
  /\ shows isCameraView (render (state s')) = true
  /\ count isDetectionItem (render (state s')) = 0.
Proof.
  apply (captureAnother_clears_image (run detected) oneFace); reflexivity.
Defined.

(** C2: without an image handle, or before the model is loaded,
    [detectFaces] does nothing at all: it is the empty computation, the press
    leaves the whole component (state, tasks in flight, calls made) as it
    was, so [setIsLoading(true)] is never called. *)
Theorem detectFaces_noop : forall (s : Sys) (w : Oracle),
  truthy (image (state s)) = false \/ model (state s) = None ->
  detectFaces (image (state s)) (model (state s)) = Ret tt
  /\ complete w (detectFaces (image (state s)) (model (state s))) s = (s, Normal tt)
  /\ exec s (Press onDetectFaces w) = s.
Proof.
  intros s w H.
  assert (E : detectFaces (image (state s)) (model (state s)) = Ret tt).
  { unfold detectFaces. destruct H as [H|H]; rewrite H.
    - destruct (image (state s)), (model (state s)); reflexivity.
    - destruct (image (state s)); reflexivity. }
  repeat split; auto.
  - rewrite E. reflexivity.
  - simpl. rewrite E. simpl.
    destruct (isMounted s && _); reflexivity.
Qed.

(** Model still loading: the permission was granted and a photo taken while
    [blazeface.load()] is in flight. *)
Lemma detectFaces_noop_witness :
  let s := run [Settle 0 oneFace; Press onTakePicture oneFace; Settle 1 oneFace] in
  shows (isButton onDetectFaces) (render (state s)) = true
  /\ exec s (Press onDetectFaces oneFace) = s.
Proof.
  split; [reflexivity|].
  apply (detectFaces_noop
           (run [Settle 0 oneFace; Press onTakePicture oneFace; Settle 1 oneFace])
           oneFace).
  right. reflexivity.
Defined.

(** C3: a call of [detectFaces] that gets past its guard sets the loading
    flag first and clears it last, however the [try] block ends, and returns
    normally.  When a step of the [try] block throws [err], the calls made
    are exactly [setIsLoading(true)], [console.error('Detection Error:', err)],
    [setIsLoading(false)]: the detection set keeps its value. *)
Theorem detectFaces_failure : forall (w : Oracle) (s : Sys) img mdl,
  image (state s) = Some img -> img <> "" -> model (state s) = Some mdl ->
  let r := complete w (detectFaces (image (state s)) (model (state s))) s in
  (exists mid,
     history (fst r) = history s ++ setIsLoading true :: mid ++ [setIsLoading false])
  /\ isLoading (state (fst r)) = false
  /\ snd r = Normal tt
  /\ forall err,
       snd (complete w (detectFaces_try img mdl) (perform (setIsLoading true) s))
       = Threw err ->
       history (fst r) =
         history s ++ [setIsLoading true;
                       console_error "Detection Error:" err;
                       setIsLoading false]
       /\ detections (state (fst r)) = detections (state s).
Proof.
  intros w s img mdl Hi Hne Hm r. subst r. rewrite Hi, Hm.
  rewrite detectFaces_complete by assumption. cbn zeta.
  set (s1 := perform (setIsLoading true) s).
  pose proof (detectFaces_try_complete w img mdl s1) as Hc.
  destruct (complete w (detectFaces_try img mdl) s1) as [s2 [[]|err]] eqn:E.
  - assert (exists ds, s2 = perform (setDetections ds) s1) as [ds ->].
    { repeat match type of Hc with
             | _ = match ?x with _ => _ end => destruct x
             end; try discriminate.
      injection Hc as ->. eauto. }
    split; [|split; [|split]]; try reflexivity.
    + exists [setDetections ds]. simpl. rewrite <- !app_assoc. reflexivity.
    + intros err H. discriminate.
  - pose proof (detectFaces_try_threw w img mdl s1) as Ht.
    rewrite E in Ht. specialize (Ht err eq_refl). injection Ht as ->.
    split; [|split; [|split]]; try reflexivity.
    + exists [console_error "Detection Error:" err]. simpl.
      rewrite <- !app_assoc. reflexivity.
    + intros err' H. simpl in H. injection H as <-. simpl.
      rewrite <- !app_assoc. split; reflexivity.
Qed.

(** The file read fails. *)
Lemma detectFaces_failure_witness :
  let s := run detected in
  let r := complete unreadable (detectFaces (image (state s)) (model (state s))) s in
  history (fst r) =
    history s ++ [setIsLoading true;
                  console_error "Detection Error:" "ENOENT";
                  setIsLoading false]
  /\ detections (state (fst r)) = detections (state s).
Proof.
  apply (fun H1 H2 H3 =>
           proj2 (proj2 (proj2
             (@detectFaces_failure unreadable (run detected)
                "file:///photo.jpg" {| modelHandle := 1 |} H1 H2 H3))));
    [reflexivity|discriminate|reflexivity|reflexivity].
Defined.

(** C4: when no step of a [detectFaces] call throws, the detection set is
    replaced by the array mapped from the predictions the model returned,
    one detection per prediction and in the model's order; no prediction
    gives the empty set; and the review view lists as many detections as
    there were predictions. *)
Theorem detectFaces_completed : forall (w : Oracle) (s : Sys) img mdl,
  image (state s) = Some img -> img <> "" -> model (state s) = Some mdl ->
  snd (complete w (detectFaces_try img mdl) (perform (setIsLoading true) s))
  = Normal tt ->
  let s' := fst (complete w (detectFaces (image (state s)) (model (state s))) s) in
  exists tensor predictions,
    w _ (estimateFaces mdl tensor false) = Resolved predictions
    /\ Forall2 (fun p d => mapPrediction p = Normal d) predictions (detections (state s'))
    /\ List.length (detections (state s')) = List.length predictions
    /\ (predictions = [] -> detections (state s') = [])
    /\ (hasPermission (state s) = Some true ->
        count isDetectionItem (render (state s')) = List.length predictions).
Proof.
  intros w s img mdl Hi Hne Hm Hok s'. subst s'. rewrite Hi, Hm.
  rewrite detectFaces_complete by assumption. cbn zeta.
  set (s1 := perform (setIsLoading true) s) in *.
  rewrite detectFaces_try_complete in *.
  destruct (w _ (readAsStringAsync img "base64")) as [imgB64|]; [|discriminate].
  destruct (w _ (encodeString imgB64 "base64")) as [raw|]; [|discriminate].
  destruct (w _ (decodeJpeg raw)) as [tensor|]; [|discriminate].
  destruct (w _ (estimateFaces mdl tensor false)) as [predictions|] eqn:Ew;
    [|discriminate].
  destruct (mapArray mapPrediction predictions) as [faces|] eqn:Ef; [|discriminate].
  exists tensor, predictions. simpl.
  pose proof (mapArray_Normal _ _ Ef) as HF.
  pose proof (Forall2_length HF) as HL.
  split; [exact Ew|]. split; [exact HF|]. split; [auto|].
  split.
  - intros ->. destruct faces; [reflexivity|discriminate].
  - intros Hp.
    rewrite (@render_review _ img) by (simpl; auto).
    count_tree. rewrite reviewView_detectionItems. simpl. lia.
Qed.

Lemma detectFaces_completed_witness :
  let s := run captured in
  let s' := fst (complete oneFace
                   (detectFaces (image (state s)) (model (state s))) s) in
  exists tensor predictions,
    oneFace (estimateFaces {| modelHandle := 1 |} tensor false) = Resolved predictions
    /\ Forall2 (fun p d => mapPrediction p = Normal d) predictions (detections (state s'))
    /\ List.length (detections (state s')) = List.length predictions
    /\ (predictions = [] -> detections (state s') = [])
    /\ (hasPermission (state s) = Some true ->
        count isDetectionItem (render (state s')) = List.length predictions).
Proof.
  apply (@detectFaces_completed oneFace (run captured)
           "file:///photo.jpg" {| modelHandle := 1 |});
    [reflexivity|discriminate|reflexivity|reflexivity].
Defined.

(** C5: a detection built from a prediction has exactly five landmarks,
    named left_eye, right_eye, nose, mouth_left, mouth_right in this order,
    and the i-th one has the coordinates [landmarks[i][0]] and
    [landmarks[i][1]] of the prediction. *)
Theorem mapPrediction_landmarks : forall (p : Prediction.t) (d : Detection.t),
  mapPrediction p = Normal d ->
  List.length (Detection.landmarks d) = 5
  /\ map Landmark.part (Detection.landmarks d) =
       ["left_eye"; "right_eye"; "nose"; "mouth_left"; "mouth_right"]
  /\ forall i l, index (Detection.landmarks d) i = Some l ->
       exists pt, index (Prediction.landmarks p) i = Some pt
                  /\ Landmark.x l = index pt 0
                  /\ Landmark.y l = index pt 1.
Proof.
  intros p d H.
  destruct (mapPrediction_Normal _ H) as (_ & _ & _ & Hlen & ->).
  split; [reflexivity|]. split; [reflexivity|].
  intros i l Hl.
  assert (Hi : i < 5).
  { unfold index in Hl.
    assert (Hsome : nth_error
              (map (fun '(i, name) =>
                      {| Landmark.part := name; Landmark.x := coordinate p i 0;
                         Landmark.y := coordinate p i 1 |})
                   (combine (seq 0 5) landmarkNames)) i <> None)
      by (rewrite Hl; discriminate).
    apply nth_error_Some in Hsome. exact Hsome. }
  assert (Hpt : exists pt, index (Prediction.landmarks p) i = Some pt).
  { unfold index. destruct (nth_error (Prediction.landmarks p) i) eqn:E; eauto.
    apply nth_error_None in E. lia. }
  destruct Hpt as [pt Hpt]. exists pt. split; [exact Hpt|].
  unfold index in Hl.
  do 5 (destruct i as [|i];
        [simpl in Hl; injection Hl as <-; simpl; unfold coordinate;
         rewrite Hpt; split; reflexivity|]).
  lia.
Qed.

Lemma mapPrediction_landmarks_witness :
  exists d, mapPrediction sampleFace = Normal d
  /\ List.length (Detection.landmarks d) = 5
  /\ map Landmark.part (Detection.landmarks d) =
       ["left_eye"; "right_eye"; "nose"; "mouth_left"; "mouth_right"]
  /\ index (Detection.landmarks d) 2 =
       Some {| Landmark.part := "nose"; Landmark.x := Some 50%float;
               Landmark.y := Some 60%float |}.
Proof.
  eexists. split; [reflexivity|].
  split; [|split; [|reflexivity]];
    eapply (@mapPrediction_landmarks sampleFace); reflexivity.
Defined.

(** C6: the answer to the permission request becomes [hasPermission];
    once the permission is denied the screen is the access-denied text and
    shows no camera, whatever happens later; with the permission granted and
    no image stored the camera view is on screen. *)
Theorem permission_contract :
  (forall (w : Oracle) r,
     w _ requestCameraPermissionsAsync = Resolved r ->
     hasPermission (state (exec mount (Settle 0 w))) = Some (status r =? "granted"))
  /\ (forall evs later,
        hasPermission (state (run evs)) = Some false ->
        let s' := fold_left exec later (run evs) in
        render (state s') = accessDenied
        /\ shows isCameraView (render (state s')) = false)
  /\ (forall st,
        hasPermission st = Some true -> image st = None ->
        shows isCameraView (render st) = true).
Proof.
  split; [|split].
  - intros w r Hr. simpl. rewrite Hr. reflexivity.
  - intros evs later Hp s'.
    destruct (Inv_fold later (Inv_run evs)) as [_ Hk].
    assert (Hp' : hasPermission (state s') = Some false).
    { subst s'. rewrite Hk; [exact Hp|congruence]. }
    unfold render. rewrite Hp'. split; reflexivity.
  - intros st Hp Hi. apply render_camera; auto. rewrite Hi. reflexivity.
Qed.

(** Permission denied, then the rest of the start-up and the unmount. *)
Lemma permission_contract_witness :
  hasPermission (state (exec mount (Settle 0 refusing))) = Some false
  /\ render (state (run [Settle 0 refusing; Settle 0 refusing;
                         Press onTakePicture refusing; Settle 0 refusing;
                         Unmount]))
     = accessDenied
  /\ shows isCameraView (render (state (run [Settle 0 oneFace]))) = true.
Proof.
  split; [|split].
  - apply (proj1 permission_contract refusing {| status := "denied" |}).
    reflexivity.
  - apply (proj1 (proj2 permission_contract) [Settle 0 refusing]
             [Settle 0 refusing; Press onTakePicture refusing;
              Settle 0 refusing; Unmount]).
    reflexivity.
  - apply (proj2 (proj2 permission_contract)); reflexivity.
Defined.

(** C7: in a running component whose state holds an image and an empty
    detection set, the no-face message is on screen exactly when [isLoading]
    is false, the loading indicator exactly when it is true, and the two are
    never on screen together. *)
Theorem noFace_iff_not_loading : forall evs,
  let st := state (run evs) in
  truthy (image st) = true ->
  detections st = [] ->
  shows isNoFaceMessage (render st) = negb (isLoading st)
  /\ shows isActivityIndicator (render st) = isLoading st
  /\ shows isActivityIndicator (render st) && shows isNoFaceMessage (render st) = false.
Proof.
  intros evs st Ht Hd.
  pose proof (image_needs_permission evs Ht) as Hp. fold st in Hp.
  destruct (image st) as [img|] eqn:Hi; [|discriminate].
  apply truthy_Some in Ht.
  split; [|split; [|apply indicator_excludes_noFace]].
  - rewrite (render_review _ Hp Hi Ht).
    pose proof (reviewView_noFace img st) as H. rewrite Hd in H.
    unfold shows in *. count_tree. cbn [isNoFaceMessage].
    rewrite Nat.add_0_r. exact H.
  - rewrite (render_review _ Hp Hi Ht).
    pose proof (reviewView_indicator img st) as H.
    unfold shows in *. count_tree. cbn [isActivityIndicator].
    rewrite Nat.add_0_r. exact H.
Qed.

(** Right after the photo is taken, and while the detection is in flight. *)
Lemma noFace_iff_not_loading_witness :
  shows isNoFaceMessage (render (state (run captured))) = true
  /\ shows isNoFaceMessage
       (render (state (run (captured ++ [Press onDetectFaces oneFace])))) = false.
Proof.
  split.
  - apply (noFace_iff_not_loading captured); reflexivity.
  - apply (noFace_iff_not_loading (captured ++ [Press onDetectFaces oneFace]));
      reflexivity.
Defined.

(** C8: running the overlay callback twice with the same detection set
    leaves the surface as one run does; with detections in the set the
    surface then shows exactly one filled red circle of radius 5 per landmark
    of each detection, at the landmark's coordinates (five per detection when
    every detection has its five landmarks), whatever was painted before. *)
Theorem onContextCreate_idempotent : forall (ds : list Detection.t) (g : GL),
  onContextCreate ds (onContextCreate ds g) = onContextCreate ds g
  /\ (ds <> [] ->
      presented (onContextCreate ds g) = markers ds
      /\ buffer (onContextCreate ds g) = markers ds)
  /\ (Forall (fun d => List.length (Detection.landmarks d) = 5) ds ->
      List.length (markers ds) = 5 * List.length ds).
Proof.
  intros ds g. split; [|split].
  - destruct ds as [|d ds]; [reflexivity|].
    rewrite !onContextCreate_redraws by discriminate. reflexivity.
  - intros Hne. rewrite onContextCreate_redraws by assumption. split; reflexivity.
  - apply markers_length.
Qed.

(** The face found in [detected], drawn over a surface that already shows
    something. *)
Lemma onContextCreate_idempotent_witness :
  let ds := detections (state (run detected)) in
  let g := {| drawingBufferWidth := 300; drawingBufferHeight := 300;
              buffer := [Filled [] "blue"]; presented := [Filled [] "blue"] |} in
  presented (onContextCreate ds g) = markers ds
  /\ List.length (markers ds) = 5.
Proof.
  split.
  - refine (proj1 (proj1 (proj2 (onContextCreate_idempotent
                           (detections (state (run detected)))
                           {| drawingBufferWidth := 300; drawingBufferHeight := 300;
                              buffer := [Filled [] "blue"];
                              presented := [Filled [] "blue"] |})) _)).
    vm_compute. discriminate.
  - refine (proj2 (proj2 (onContextCreate_idempotent
                           (detections (state (run detected)))
                           {| drawingBufferWidth := 300; drawingBufferHeight := 300;
                              buffer := []; presented := [] |})) _).
    vm_compute. repeat constructor.
Defined.

(** C9 (as stated, refuted): the flag does not cover the handlers.  After
    the unmount the completion of [takePictureAsync] still makes the call
    [setImage(photo.uri)], and the completion of [estimateFaces] still makes
    the calls [setDetections(...)] and [setIsLoading(false)]. *)
Lemma updates_after_unmount :
  (let s := run [Settle 0 oneFace; Press onTakePicture oneFace; Unmount] in
   isMounted s = false
   /\ history (exec s (Settle 1 oneFace))
      = history s ++ [setImage (Some "file:///photo.jpg")])
  /\ (let s := run (captured ++ [Press onDetectFaces oneFace; Settle 0 oneFace;
                                 Unmount]) in
      isMounted s = false
      /\ match mapPrediction sampleFace with
         | Normal face =>
             history (exec s (Settle 0 oneFace))
             = history s ++ [setDetections [face]; setIsLoading false]
         | Threw _ => False
         end).
Proof.
  vm_compute. repeat split.
Qed.

(** C9 (amended): when the permission request, the runtime start or the
    model load of the mount effect completes after the unmount, the flag
    [isMounted] keeps the effect from calling any setter: the state and the
    list of setter calls stay as they were. *)
Theorem mountEffect_suppressed : forall evs i (w : Oracle) t,
  let s := run evs in
  isMounted s = false ->
  nth_error (tasks s) i = Some t ->
  origin t = FromMountEffect ->
  state (exec s (Settle i w)) = state s
  /\ setterCalls (exec s (Settle i w)) = setterCalls s.
Proof.
  intros evs i w t s Hm Hn Ho. simpl. rewrite Hn, Ho.
  set (s0 := withTasks (removeAt i (tasks s)) s).
  assert (Hin : In t (tasks s)) by (eapply nth_error_In; eauto).
  pose proof (inv_guard (Inv_run evs)) as Hg. fold s in Hg.
  rewrite Forall_forall in Hg.
  assert (Hp : guarded (isMounted s0) (resume t (w _ (request t)))).
  { apply (@taskGuarded_resume _ _ _ (Hg t Hin) Ho). }
  destruct (advance_guarded FromMountEffect w _ s0 Hp) as [H _].
  apply (H Hm).
Qed.

(** The three stages of the mount effect, each completing after the
    unmount. *)
Lemma mountEffect_suppressed_witness :
  state (exec (run [Unmount]) (Settle 0 oneFace)) = state (run [Unmount])
  /\ state (exec (run [Settle 0 oneFace; Unmount]) (Settle 0 oneFace))
     = state (run [Settle 0 oneFace; Unmount])
  /\ state (exec (run [Settle 0 oneFace; Settle 0 oneFace; Unmount]) (Settle 0 oneFace))
     = state (run [Settle 0 oneFace; Settle 0 oneFace; Unmount]).
Proof.
  split; [|split].
  - eapply (mountEffect_suppressed [Unmount] 0 oneFace); reflexivity.
  - eapply (mountEffect_suppressed [Settle 0 oneFace; Unmount] 0 oneFace);
      reflexivity.
  - eapply (mountEffect_suppressed
              [Settle 0 oneFace; Settle 0 oneFace; Unmount] 0 oneFace);
      reflexivity.
Defined.

(** C10: with an empty detection set the overlay callback makes no call on
    the drawing context, not even [clearRect]: the surface keeps what it
    showed.  [clearRect] is called only when the set is not empty. *)
Theorem onContextCreate_empty_untouched : forall (g : GL) (ds : list Detection.t) w h,
  onContextCreate_calls [] w h = []
  /\ onContextCreate [] g = g
  /\ (In (clearRect 0 0 w h) (onContextCreate_calls ds w h) <-> ds <> []).
Proof.
  intros g ds w h. split; [reflexivity|]. split; [reflexivity|].
  unfold onContextCreate_calls. destruct ds as [|d ds]; simpl.
  - split; [contradiction|congruence].
  - split; [discriminate|auto].
Qed.

(** * Further properties of the component *)

(** ** The screen *)

Lemma count_button_review h img st :
  count (isButton h) (reviewView img st) =
  match h with onTakePicture => 0 | _ => 1 end.
Proof.
  unfold reviewView.
  destruct (0 <? List.length (detections st))%nat eqn:E.
  - count_tree.
    rewrite (@count_detectionItems_none (isButton h) eq_refl eq_refl eq_refl eq_refl).
    destruct h, (isLoading st); reflexivity.
  - destruct h, (isLoading st); reflexivity.
Qed.

(** X1: which buttons are on screen.  "Take Photo" is shown exactly when
    the permission is granted and the state holds no image; "Detect Faces"
    and "Capture Another Photo" exactly when the permission is granted and
    the state holds an image, whether or not the model is loaded or a
    detection is running. *)
Theorem buttons_on_screen : forall (st : State) (h : Handler),
  shows (isButton h) (render st) =
  match hasPermission st with
  | Some true =>
      match h with
      | onTakePicture => negb (truthy (image st))
      | _ => truthy (image st)
      end
  | _ => false
  end.
Proof.
  intros st h. destruct (hasPermission st) as [[|]|] eqn:Hp.
  - destruct (truthy (image st)) eqn:Ht.
    + destruct (image st) as [img|] eqn:Hi; [|discriminate].
      apply truthy_Some in Ht. rewrite (render_review _ Hp Hi Ht).
      unfold shows. count_tree. rewrite count_button_review.
      destruct h; reflexivity.
    + unfold render. rewrite Hp, Ht.
      destruct (image st) as [img|].
      * unfold truthy in Ht. apply negb_false_iff in Ht. rewrite Ht.
        destruct h; reflexivity.
      * destruct h; reflexivity.
  - unfold render. rewrite Hp. destruct h; reflexivity.
  - unfold render. rewrite Hp. destruct h; reflexivity.
Qed.

Lemma count_landmark_lines ds :
  list_sum (map (count isLandmarkItem) (map detectionItem ds)) =
  List.length (flat_map Detection.landmarks ds).
Proof.
  induction ds as [|d ds IH]; [reflexivity|].
  cbn [map flat_map]. rewrite list_sum_cons, IH, count_detectionItem, length_app.
  simpl. lia.
Qed.

Lemma reviewView_landmark_lines img st :
  count isLandmarkItem (reviewView img st) =
  List.length (flat_map Detection.landmarks (detections st)).
Proof.
  unfold reviewView.
  destruct (0 <? List.length (detections st))%nat eqn:E.
  - count_tree. rewrite count_landmark_lines.
    destruct (isLoading st); simpl; lia.
  - rewrite (ltb_length_nil _ E). destruct (isLoading st); reflexivity.
Qed.

(** X2: the review view.  With the permission granted and an image in the
    state, the camera is off screen, the loading indicator is shown exactly
    when [isLoading] is set, and the detections held in the state are listed,
    one entry per detection and one line per landmark, whether or not
    [isLoading] is set: during a new run the previous results stay on screen
    next to the indicator. *)
Theorem review_view_content : forall (st : State) img,
  hasPermission st = Some true -> image st = Some img -> img <> "" ->
  shows isCameraView (render st) = false
  /\ shows isActivityIndicator (render st) = isLoading st
  /\ count isDetectionItem (render st) = List.length (detections st)
  /\ count isLandmarkItem (render st)
     = List.length (flat_map Detection.landmarks (detections st)).
Proof.
  intros st img Hp Hi Hne. rewrite (render_review _ Hp Hi Hne).
  pose proof (reviewView_no_camera img st) as H1.
  pose proof (reviewView_indicator img st) as H2.
  pose proof (reviewView_detectionItems img st) as H3.
  pose proof (reviewView_landmark_lines img st) as H4.
  unfold shows in *. count_tree.
  cbn [isCameraView isActivityIndicator isDetectionItem isLandmarkItem String.eqb
       Ascii.eqb Bool.eqb].
  rewrite !Nat.add_0_r. cbn [Nat.add].
  rewrite H1, H3, H4. repeat split; auto.
Qed.

(** A second detection run started while the face of the first is listed. *)
Lemma review_view_content_witness :
  let st := state (run (detected ++ [Press onDetectFaces oneFace])) in
  isLoading st = true
  /\ shows isActivityIndicator (render st) = true
  /\ count isDetectionItem (render st) = 1
  /\ count isLandmarkItem (render st) = 5.
Proof.
  split; [reflexivity|].
  refine ((fun H => conj (eq_trans (proj1 (proj2 H)) eq_refl)
                      (conj (eq_trans (proj1 (proj2 (proj2 H))) eq_refl)
                            (eq_trans (proj2 (proj2 (proj2 H))) eq_refl)))
            (@review_view_content
               (state (run (detected ++ [Press onDetectFaces oneFace])))
               "file:///photo.jpg" eq_refl eq_refl _)).
  discriminate.
Defined.

(** ** The overlay, run after run *)

Lemma onContextCreate_size ds g :
  drawingBufferWidth (onContextCreate ds g) = drawingBufferWidth g
  /\ drawingBufferHeight (onContextCreate ds g) = drawingBufferHeight g.
Proof.
  destruct ds as [|d ds]; [split; reflexivity|].
  rewrite onContextCreate_redraws by discriminate. split; reflexivity.
Qed.

(** X3: two runs of the overlay callback in a row.  A second run with a
    non-empty detection set shows that set alone, as if the first run had not
    happened; a second run with the empty set changes nothing, so the markers
    of the first set stay on the surface. *)
Theorem onContextCreate_twice : forall (ds1 ds2 : list Detection.t) (g : GL),
  onContextCreate ds2 (onContextCreate ds1 g) =
  match ds2 with
  | [] => onContextCreate ds1 g
  | _ :: _ => onContextCreate ds2 g
  end.
Proof.
  intros ds1 ds2 g. destruct ds2 as [|d ds2]; [reflexivity|].
  destruct (onContextCreate_size ds1 g) as [Hw Hh].
  rewrite !(@onContextCreate_redraws (d :: ds2)) by discriminate.
  rewrite Hw, Hh. reflexivity.
Qed.

(** ** Predictions the mapping cannot take *)

Lemma landmarkAt_Threw name p i err :
  landmarkAt name p i = Threw err ->
  err = TypeError /\ List.length (Prediction.landmarks p) <= i.
Proof.
  unfold landmarkAt, index.
  destruct (nth_error (Prediction.landmarks p) i) eqn:E; [discriminate|].
  intros H; injection H as <-. split; [reflexivity|].
  apply nth_error_None, E.
Qed.

Lemma mapPrediction_Threw p err :
  mapPrediction p = Threw err -> err = TypeError.
Proof.
  unfold mapPrediction.
  destruct (landmarkAt "left_eye" p 0) eqn:E0;
    [|simpl; intros H; injection H as <-; apply (landmarkAt_Threw _ _ _ E0)].
  destruct (landmarkAt "right_eye" p 1) eqn:E1;
    [|simpl; intros H; injection H as <-; apply (landmarkAt_Threw _ _ _ E1)].
  destruct (landmarkAt "nose" p 2) eqn:E2;
    [|simpl; intros H; injection H as <-; apply (landmarkAt_Threw _ _ _ E2)].
  destruct (landmarkAt "mouth_left" p 3) eqn:E3;
    [|simpl; intros H; injection H as <-; apply (landmarkAt_Threw _ _ _ E3)].
  destruct (landmarkAt "mouth_right" p 4) eqn:E4;
    [|simpl; intros H; injection H as <-; apply (landmarkAt_Threw _ _ _ E4)].
  discriminate.
Qed.

Lemma mapPrediction_short p :
  List.length (Prediction.landmarks p) < 5 -> mapPrediction p = Threw TypeError.
Proof.
  intros Hlen. destruct (mapPrediction p) as [d|err] eqn:E.
  - apply mapPrediction_Normal in E. lia.
  - apply mapPrediction_Threw in E. congruence.
Qed.

Lemma mapArray_short predictions :
  Exists (fun p => List.length (Prediction.landmarks p) < 5) predictions ->
  mapArray mapPrediction predictions = Threw TypeError.
Proof.
  induction 1 as [p rest Hp|p rest _ IH]; simpl.
  - rewrite (mapPrediction_short _ Hp). reflexivity.
  - destruct (mapPrediction p) as [d|err] eqn:E; simpl.
    + rewrite IH. reflexivity.
    + apply mapPrediction_Threw in E. congruence.
Qed.

(** X4: one prediction with fewer than five landmark entries spoils the
    whole run.  Reading [landmarks[i][0]] of the missing entry throws a
    TypeError inside [predictions.map], so the run logs that error and sets
    no detections at all, also none for the well-formed predictions next to
    it: the detection set keeps its previous value. *)
Theorem detectFaces_short_prediction :
  forall (w : Oracle) (s : Sys) img mdl imgB64 raw tensor predictions,
  img <> "" ->
  w _ (readAsStringAsync img "base64") = Resolved imgB64 ->
  w _ (encodeString imgB64 "base64") = Resolved raw ->
  w _ (decodeJpeg raw) = Resolved tensor ->
  w _ (estimateFaces mdl tensor false) = Resolved predictions ->
  Exists (fun p => List.length (Prediction.landmarks p) < 5) predictions ->
  let s' := fst (complete w (detectFaces (Some img) (Some mdl)) s) in
  history s' = history s ++ [setIsLoading true;
                             console_error "Detection Error:" TypeError;
                             setIsLoading false]
  /\ detections (state s') = detections (state s).
Proof.
  intros w s img mdl imgB64 raw tensor predictions Hne H1 H2 H3 H4 Hshort s'.
  subst s'. rewrite detectFaces_complete by assumption. cbn zeta.
  rewrite detectFaces_try_complete, H1, H2, H3, H4, (mapArray_short Hshort).
  simpl. rewrite <- !app_assoc. split; reflexivity.
Qed.

(** A face with its five landmarks next to one with only four. *)
Lemma detectFaces_short_prediction_witness :
  let cut := {| Prediction.probability := [0.5%float];
                Prediction.topLeft := [0%float; 0%float];
                Prediction.bottomRight := [8%float; 8%float];
                Prediction.landmarks :=
                  [[1%float; 1%float]; [2%float; 1%float]; [3%float; 2%float];
                   [1%float; 3%float]] |} in
  let w := host "granted" "file:///photo.jpg" (Resolved "/9j/4AAQ")
             (Resolved [sampleFace; cut]) in
  let s := run detected in
  let s' := fst (complete w (detectFaces (Some "file:///photo.jpg")
                               (Some {| modelHandle := 1 |})) s) in
  history s' = history s ++ [setIsLoading true;
                             console_error "Detection Error:" TypeError;
                             setIsLoading false]
  /\ detections (state s') = detections (state s).
Proof.
  intros cut w s.
  apply (@detectFaces_short_prediction w s "file:///photo.jpg"
           {| modelHandle := 1 |} "/9j/4AAQ" [] {| tensorHandle := 1 |}
           [sampleFace; cut]);
    try reflexivity; [discriminate|].
  apply Exists_cons_tl, Exists_cons_hd. simpl. lia.
Defined.

(** ** What the mapping reads *)

Lemma landmarkAt_firstFive name p i :
  i < 5 -> landmarkAt name (firstFive p) i = landmarkAt name p i.
Proof.
  intros Hi. unfold landmarkAt, index, firstFive. cbn [Prediction.landmarks].
  rewrite nth_error_firstn.
  destruct (Nat.ltb_spec i 5); [reflexivity|lia].
Qed.

(** X5: the mapping reads the first five landmark entries only.  Cutting
    the landmark array of a prediction after its fifth entry (the model
    returns six) changes nothing in the result, which carries the fixed
    class, [probability[0]] as score (undefined for an empty array) and the
    corners [topLeft] and [bottomRight] joined as bounding box. *)
Theorem mapPrediction_firstFive : forall (p : Prediction.t),
  mapPrediction (firstFive p) = mapPrediction p
  /\ forall d, mapPrediction p = Normal d ->
       Detection.class d = "Hursun"
       /\ Detection.score d = index (Prediction.probability p) 0
       /\ Detection.boundingBox d = Prediction.topLeft p ++ Prediction.bottomRight p
       /\ List.length (Detection.boundingBox d)
          = List.length (Prediction.topLeft p) + List.length (Prediction.bottomRight p).
Proof.
  intros p. split.
  - unfold mapPrediction. rewrite !landmarkAt_firstFive by lia. reflexivity.
  - intros d H. destruct (mapPrediction_Normal _ H) as (H1 & H2 & H3 & _).
    repeat split; auto. rewrite H3. apply length_app.
Qed.

Lemma mapPrediction_firstFive_witness :
  List.length (Prediction.landmarks sampleFace) = 6
  /\ mapPrediction (firstFive sampleFace) = mapPrediction sampleFace
  /\ exists d, mapPrediction sampleFace = Normal d
               /\ Detection.score d = Some 0.875%float
               /\ List.length (Detection.boundingBox d) = 4.
Proof.
  split; [reflexivity|]. split; [apply (mapPrediction_firstFive sampleFace)|].
  eexists. split; [reflexivity|].
  refine ((fun H => conj (eq_trans (proj1 (proj2 H)) eq_refl)
                         (eq_trans (proj2 (proj2 (proj2 H))) eq_refl))
            (proj2 (mapPrediction_firstFive sampleFace) _ eq_refl)).
Defined.

(** ** Taking a picture *)

Lemma takePhoto_button_camera st :
  shows (isButton onTakePicture) (render st) = true ->
  hasPermission st = Some true /\ truthy (image st) = false
  /\ cameraRef_current st = Some CameraViewInstance.
Proof.
  intros H. pose proof (button_needs_permission _ _ H) as Hp.
  assert (Ht : truthy (image st) = false).
  { destruct (truthy (image st)) eqn:Ht; [|reflexivity].
    destruct (image st) as [img|] eqn:Hi; [|discriminate].
    apply truthy_Some in Ht. rewrite (render_review _ Hp Hi Ht) in H.
    unfold shows in H. revert H. count_tree. rewrite count_button_review.
    discriminate. }
  repeat split; auto.
  unfold cameraRef_current.
  destruct (render_camera _ Hp Ht) as [-> _]. reflexivity.
Qed.

Lemma withTasks_suspend t s : withTasks (tasks s) (suspend t s) = s.
Proof. destruct s; reflexivity. Qed.

(** A press on "Take Photo" and the completion of the capture. *)
Lemma takePicture_run s (w : Oracle) :
  isMounted s = true ->
  shows (isButton onTakePicture) (render (state s)) = true ->
  exec (exec s (Press onTakePicture w)) (Settle (List.length (tasks s)) w) =
  match w _ (takePictureAsync CameraViewInstance) with
  | Resolved photo => perform (setImage (Some (uri photo))) s
  | Rejected err => reject err s
  end.
Proof.
  intros Hm Hb. destruct (takePhoto_button_camera _ Hb) as (_ & _ & Hc).
  cbn [exec]. rewrite Hm, Hb. cbn [andb handler]. rewrite Hc.
  unfold takePicture, await. cbn [bind advance suspend tasks].
  rewrite nth_error_last, removeAt_last. cbn [origin request resume awaited].
  rewrite withTasks_suspend.
  destruct (w _ (takePictureAsync CameraViewInstance)); reflexivity.
Qed.

(** X6: the two ways a capture ends.  When [takePictureAsync] resolves, the
    only call made is [setImage(photo.uri)]: the image is replaced and every
    other piece of state, the detection set included, is as before.  When it
    rejects, no setter is called and the state is untouched; the rejection is
    handled by nobody. *)
Theorem takePicture_outcome : forall (s : Sys) (w : Oracle),
  isMounted s = true ->
  shows (isButton onTakePicture) (render (state s)) = true ->
  let s' := exec (exec s (Press onTakePicture w)) (Settle (List.length (tasks s)) w) in
  tasks s' = tasks s
  /\ match w _ (takePictureAsync CameraViewInstance) with
     | Resolved photo =>
         history s' = history s ++ [setImage (Some (uri photo))]
         /\ image (state s') = Some (uri photo)
         /\ detections (state s') = detections (state s)
         /\ isLoading (state s') = isLoading (state s)
         /\ uncaught s' = uncaught s
     | Rejected err =>
         history s' = history s
         /\ state s' = state s
         /\ uncaught s' = uncaught s ++ [err]
     end.
Proof.
  intros s w Hm Hb s'. subst s'. rewrite takePicture_run by assumption.
  destruct (w _ (takePictureAsync CameraViewInstance)); repeat split.
Qed.

Lemma takePicture_outcome_witness :
  let s := run [Settle 0 oneFace] in
  let failing : Oracle := fun R e =>
    match e in Ext R return Outcome R with
    | takePictureAsync _ => Rejected "Camera is not running"
    | e' => oneFace e'
    end in
  let s' := exec (exec s (Press onTakePicture failing)) (Settle 1 failing) in
  state s' = state s /\ uncaught s' = ["Camera is not running"].
Proof.
  intros s failing.
  refine ((fun H => conj (proj1 (proj2 (proj2 H))) (proj2 (proj2 (proj2 H))))
            (@takePicture_outcome s failing eq_refl eq_refl)).
Defined.

(** X7: what the screen shows after a capture.  When the capture resolves
    with a non-empty uri, the camera leaves the screen, the review buttons
    appear, and the review view lists the detections the state held before
    the capture: neither the capture nor "Capture Another Photo" clears them,
    so the faces found in the previous photo are shown under the new one. *)
Theorem capture_shows_review : forall (s : Sys) (w : Oracle) photo,
  isMounted s = true ->
  shows (isButton onTakePicture) (render (state s)) = true ->
  w _ (takePictureAsync CameraViewInstance) = Resolved photo ->
  uri photo <> "" ->
  let s' := exec (exec s (Press onTakePicture w)) (Settle (List.length (tasks s)) w) in
  shows isCameraView (render (state s')) = false
  /\ shows (isButton onDetectFaces) (render (state s')) = true
  /\ shows (isButton onCaptureAnother) (render (state s')) = true
  /\ count isDetectionItem (render (state s')) = List.length (detections (state s)).
Proof.
  intros s w photo Hm Hb Hw Hne s'. subst s'.
  rewrite takePicture_run, Hw by assumption.
  destruct (takePhoto_button_camera _ Hb) as (Hp & _ & _).
  rewrite (@render_review _ (uri photo)) by (simpl; auto).
  pose proof (reviewView_no_camera (uri photo)
                (state (perform (setImage (Some (uri photo))) s))) as H1.
  pose proof (reviewView_detectionItems (uri photo)
                (state (perform (setImage (Some (uri photo))) s))) as H2.
  unfold shows. count_tree. rewrite !count_button_review, H1, H2.
  repeat split. simpl. lia.
Qed.

(** The face found in the first photo, listed under the second. *)
Lemma capture_shows_review_witness :
  let s := run (detected ++ [Press onCaptureAnother oneFace]) in
  let w := host "granted" "file:///second.jpg" (Resolved "/9j/4AAQ") (Resolved []) in
  let s' := exec (exec s (Press onTakePicture w)) (Settle 0 w) in
  image (state s') = Some "file:///second.jpg"
  /\ count isDetectionItem (render (state s')) = 1.
Proof.
  intros s w. split; [reflexivity|].
  refine (eq_trans (proj2 (proj2 (proj2
            (@capture_shows_review s w {| uri := "file:///second.jpg" |}
               eq_refl eq_refl eq_refl _)))) eq_refl).
  discriminate.
Defined.

(** ** Starting a detection *)

(** X8: a press on "Detect Faces" with the model loaded.  The press calls
    [setIsLoading(true)] and nothing else, keeps the detection set, and leaves
    one more task in flight: the read of the file of the image shown when the
    button was pressed.  Nothing looks at [isLoading] first, so a press while
    a run is in flight starts another run next to it. *)
Theorem detectFaces_press : forall (s : Sys) (w : Oracle) img mdl,
  isMounted s = true ->
  hasPermission (state s) = Some true ->
  image (state s) = Some img -> img <> "" ->
  model (state s) = Some mdl ->
  let s' := exec s (Press onDetectFaces w) in
  history s' = history s ++ [setIsLoading true]
  /\ isLoading (state s') = true
  /\ detections (state s') = detections (state s)
  /\ exists k, tasks s' = tasks s ++ [{| origin := FromPress onDetectFaces;
                                         request := readAsStringAsync img "base64";
                                         resume := k |}].
Proof.
  intros s w img mdl Hm Hp Hi Hne Hmd s'. subst s'.
  assert (Hb : shows (isButton onDetectFaces) (render (state s)) = true).
  { rewrite (render_review _ Hp Hi Hne). unfold shows. count_tree.
    rewrite count_button_review. reflexivity. }
  cbn [exec]. rewrite Hm, Hb. cbn [andb handler]. rewrite Hi, Hmd.
  unfold detectFaces. apply truthy_Some in Hne. rewrite Hne.
  unfold detectFaces_try, await.
  cbn [bind do try_catch try_finally advance suspend perform
       history state tasks isLoading detections apply].
  repeat split. eexists. reflexivity.
Qed.

(** Two presses in a row: two runs in flight. *)
Lemma detectFaces_press_witness :
  let s := run (captured ++ [Press onDetectFaces oneFace]) in
  let s' := exec s (Press onDetectFaces oneFace) in
  isLoading (state s) = true
  /\ List.length (tasks s) = 1
  /\ List.length (tasks s') = 2
  /\ history s' = history s ++ [setIsLoading true].
Proof.
  intros s s'. split; [reflexivity|]. split; [reflexivity|]. split; [reflexivity|].
  apply (@detectFaces_press s oneFace "file:///photo.jpg" {| modelHandle := 1 |});
    try reflexivity.
  discriminate.
Defined.

(** ** What a detection may touch *)

Lemma replay_app cs1 cs2 st : replay (cs1 ++ cs2) st = replay cs2 (replay cs1 st).
Proof. apply fold_left_app. Qed.

Lemma replay_keeps (f : Effect -> bool) X (field : State -> X) :
  (forall c st, f c = false -> field (apply c st) = field st) ->
  forall cs st, Forall (fun c => f c = false) cs -> field (replay cs st) = field st.
Proof.
  intros Hk cs. induction cs as [|c cs IH]; intros st H; [reflexivity|].
  inversion H; subst. simpl. rewrite IH by assumption. auto.
Qed.

(** The calls made by a computation that avoids [f], run to its end. *)
Lemma complete_calls (f : Effect -> bool) (w : Oracle) A (p : Async A) : forall s,
  avoids f p ->
  exists cs,
    history (fst (complete w p s)) = history s ++ cs
    /\ Forall (fun c => f c = false) cs
    /\ state (fst (complete w p s)) = replay cs (state s)
    /\ uncaught (fst (complete w p s)) = uncaught s
    /\ tasks (fst (complete w p s)) = tasks s.
Proof.
  induction p as [a|err|c k IH|R e k IH|R e k IH|k IH]; intros s Hp; simpl in *.
  - exists []. rewrite app_nil_r. repeat split; auto.
  - exists []. rewrite app_nil_r. repeat split; auto.
  - destruct Hp as [Hc Hk].
    destruct (IH (perform c s) Hk) as (cs & H1 & H2 & H3 & H4 & H5).
    exists (c :: cs). rewrite H1, H3, H4, H5. simpl.
    rewrite <- app_assoc. repeat split; auto.
  - apply IH, Hp.
  - apply IH, Hp.
  - apply IH, Hp.
Qed.

(** X9: what a detection may touch.  Whatever the host answers, a run of
    [detectFaces] calls nothing but [setIsLoading], [setDetections] and
    [console.error]: the permission, the image, the runtime flag and the
    model are as before.  It never ends in a rejection, as every throw inside
    is caught. *)
Theorem detectFaces_calls : forall (w : Oracle) (s : Sys) img mdl,
  let r := complete w (detectFaces img mdl) s in
  (exists cs, history (fst r) = history s ++ cs
              /\ Forall (fun c => isDetectionCall c = true) cs)
  /\ hasPermission (state (fst r)) = hasPermission (state s)
  /\ image (state (fst r)) = image (state s)
  /\ isTfReady (state (fst r)) = isTfReady (state s)
  /\ model (state (fst r)) = model (state s)
  /\ snd r = Normal tt
  /\ uncaught (fst r) = uncaught s.
Proof.
  intros w s img mdl r. subst r.
  set (f := fun c => negb (isDetectionCall c)).
  assert (Hav : avoids f (detectFaces img mdl))
    by (apply avoids_detectFaces; reflexivity).
  destruct (@complete_calls f w _ _ s Hav) as (cs & H1 & H2 & H3 & H4 & _).
  assert (Hk : forall X (field : State -> X),
             (forall c st, f c = false -> field (apply c st) = field st) ->
             field (state (fst (complete w (detectFaces img mdl) s)))
             = field (state s)).
  { intros X field Hf. rewrite H3. apply (replay_keeps f field Hf); exact H2. }
  split; [|repeat split].
  - exists cs. split; [exact H1|].
    eapply Forall_impl; [|exact H2]. intros c Hc.
    unfold f in Hc. apply negb_false_iff in Hc. exact Hc.
  - apply Hk. intros c st Hc. unfold f in Hc. destruct c; simpl in *; congruence.
  - apply Hk. intros c st Hc. unfold f in Hc. destruct c; simpl in *; congruence.
  - apply Hk. intros c st Hc. unfold f in Hc. destruct c; simpl in *; congruence.
  - apply Hk. intros c st Hc. unfold f in Hc. destruct c; simpl in *; congruence.
  - apply detectFaces_returns.
  - exact H4.
Qed.

(** ** Start-up *)

(** X10: the start-up runs its three steps one after the other and stops
    at the first that fails.  The runtime is started only once the permission
    dialog is answered, and the model is loaded only once the runtime is
    ready, whatever the answer to the permission request was.  A rejected
    step leaves its state and that of the later steps at the initial value and
    surfaces as an unhandled rejection: after a failed start of the runtime no
    model is ever requested. *)
Theorem mountEffect_outcomes : forall (w : Oracle),
  let s := run [Settle 0 w; Settle 0 w; Settle 0 w] in
  tasks s = []
  /\ image (state s) = None /\ detections (state s) = []
  /\ isLoading (state s) = false
  /\ match w _ requestCameraPermissionsAsync with
     | Rejected err =>
         tasks (run [Settle 0 w]) = []
         /\ hasPermission (state s) = None /\ isTfReady (state s) = false
         /\ model (state s) = None /\ uncaught s = [err]
     | Resolved response =>
         (exists k, tasks (run [Settle 0 w])
                    = [{| origin := FromMountEffect; request := tf_ready;
                          resume := k |}])
         /\ hasPermission (state s) = Some (status response =? "granted")
         /\ match w _ tf_ready with
            | Rejected err =>
                tasks (run [Settle 0 w; Settle 0 w]) = []
                /\ isTfReady (state s) = false /\ model (state s) = None
                /\ uncaught s = [err]
            | Resolved _ =>
                (exists k, tasks (run [Settle 0 w; Settle 0 w])
                           = [{| origin := FromMountEffect;
                                 request := blazeface_load; resume := k |}])
                /\ isTfReady (state s) = true
                /\ match w _ blazeface_load with
                   | Rejected err => model (state s) = None /\ uncaught s = [err]
                   | Resolved loadedModel =>
                       model (state s) = Some loadedModel /\ uncaught s = []
                   end
            end
     end.
Proof.
  intros w s. subst s.
  destruct (w _ requestCameraPermissionsAsync) as [response|err1] eqn:E1;
    [destruct (w _ tf_ready) as [[]|err2] eqn:E2;
     [destruct (w _ blazeface_load) as [loadedModel|err3] eqn:E3|]|];
    repeat (cbv -[String.eqb]; first [rewrite E1|rewrite E2|rewrite E3]);
    cbv -[String.eqb];
    repeat split; try (eexists; reflexivity).
Qed.

(** ** Who calls which setter *)

Lemma handler_avoids_startup h st : avoids isStartupSetter (handler h st).
Proof.
  destruct h; simpl.
  - unfold takePicture. destruct (cameraRef_current st); [|exact I].
    simpl. intros [photo|err]; simpl; auto.
  - apply avoids_detectFaces; reflexivity.
  - auto.
Qed.

Lemma mountEffect_avoids_screen : avoids isScreenSetter mountEffect.
Proof. unfold mountEffect, await, readIsMounted. step_async. Qed.

Lemma mountEffect_avoids_loading : avoids isLoadingSetter mountEffect.
Proof. unfold mountEffect, await, readIsMounted. step_async. Qed.

Lemma avoids_screen_loading A (p : Async A) :
  avoids isScreenSetter p -> avoids isLoadingSetter p.
Proof.
  induction p; simpl; auto.
  intros [Hc Hk]. split; auto. destruct c; simpl in *; congruence.
Qed.

Lemma nonscreen_keeps X (field : State -> X) :
  (forall st b, field (apply (setHasPermission b) st) = field st) ->
  (forall st b, field (apply (setIsTfReady b) st) = field st) ->
  (forall st m, field (apply (setModel m) st) = field st) ->
  forall c st, isScreenSetter c = false -> field (apply c st) = field st.
Proof. intros H1 H2 H3 [] st H; simpl in H; try discriminate; auto. Qed.

Lemma nonstartup_keeps X (field : State -> X) :
  (forall st v, field (apply (setImage v) st) = field st) ->
  (forall st ds, field (apply (setDetections ds) st) = field st) ->
  (forall st b, field (apply (setIsLoading b) st) = field st) ->
  forall c st, isStartupSetter c = false -> field (apply c st) = field st.
Proof. intros H1 H2 H3 [] st H; simpl in H; try discriminate; auto. Qed.

Lemma apply_keeps_loading c st :
  isLoadingSetter c = false -> isLoading (apply c st) = isLoading st.
Proof. destruct c; simpl; congruence. Qed.

(** The clean-up of [detectFaces] clears the flag however the body ends. *)
Lemma finish_try_finally A (m : Async A) : forall ok,
  finish ok (try_finally m (do (setIsLoading false))).
Proof. induction m; simpl; auto. Qed.

Lemma detectFaces_finish img mdl ok :
  detectFaces img mdl = Ret tt \/ finish ok (detectFaces img mdl).
Proof.
  unfold detectFaces. destruct img as [img|], mdl as [mdl|]; auto.
  destruct (truthy (Some img)); auto.
  right. cbn [bind do finish]. apply finish_try_finally.
Qed.

Lemma In_removeAt A (l : list A) : forall i a x,
  nth_error l i = Some a -> In x l -> x = a \/ In x (removeAt i l).
Proof.
  induction l as [|b l IH]; intros [|i] a x Hn Hx; simpl in *;
    try discriminate; try contradiction.
  - injection Hn as ->. destruct Hx; auto.
  - destruct Hx as [->|Hx]; auto.
    destruct (IH i a x Hn Hx); auto.
Qed.

Section AdvanceMore.
Variables (o : Origin) (w : Oracle).

(** The task a computation that avoids [f] suspends as avoids [f] too. *)
Lemma advance_avoids_new f p : forall s,
  avoids f p ->
  exists new, tasks (advance o w p s) = tasks s ++ new
              /\ Forall (fun t => origin t = o
                                  /\ forall out, avoids f (resume t out)) new.
Proof.
  induction p as [a|err|c k IH|R e k IH|R e k IH|k IH]; intros s Hp; simpl in *.
  - exists []. rewrite app_nil_r. auto.
  - exists []. rewrite app_nil_r. auto.
  - apply (IH (perform c s)), Hp.
  - apply IH, Hp.
  - eexists [_]. split; [reflexivity|]. repeat constructor. exact Hp.
  - apply IH, Hp.
Qed.

(** A computation that clears [isLoading] before it ends either has done
    so or is still in flight. *)
Lemma advance_finish p : forall s ok,
  finish ok p ->
  (ok = true -> isLoading (state s) = false) ->
  exists new, tasks (advance o w p s) = tasks s ++ new
              /\ Forall (fun t => origin t = o
                                  /\ forall out, finish false (resume t out)) new
              /\ (new = [] -> isLoading (state (advance o w p s)) = false).
Proof.
  induction p as [a|err|c k IH|R e k IH|R e k IH|k IH]; intros s ok Hp Hok;
    simpl in *.
  - exists []. rewrite app_nil_r. auto.
  - exists []. rewrite app_nil_r. auto.
  - apply (IH (perform c s) _ Hp). intros H.
    destruct c; simpl in *; auto.
    apply negb_true_iff in H. exact H.
  - apply (IH _ s ok); auto.
  - eexists [_]. split; [reflexivity|]. split; [|discriminate].
    repeat constructor. exact Hp.
  - apply (IH _ s ok); auto.
Qed.
End AdvanceMore.

Lemma Inv2_mount : Inv2 mount.
Proof.
  split; simpl.
  - constructor; [|constructor]. simpl. congruence.
  - constructor; [|constructor]. simpl. intros _ out.
    apply (mountEffect_avoids_screen out).
  - intros _. repeat split. constructor; [reflexivity|constructor].
  - constructor; [|constructor]. left. simpl. intros out.
    apply (mountEffect_avoids_loading out).
  - discriminate.
Qed.

(** Tasks suspended by a computation of origin [o] do not disturb what is
    said of the other origins. *)
Lemma Forall_app_origin (P Q : Task -> Prop) (o : Origin) old new :
  Forall P old ->
  Forall (fun t => origin t = o /\ Q t) new ->
  (forall t, origin t = o -> Q t -> P t) ->
  Forall P (old ++ new).
Proof.
  intros Ho Hn H. apply Forall_app. split; auto.
  eapply Forall_impl; [|exact Hn]. intros t [H1 H2]. auto.
Qed.

Lemma Inv2_press s h w :
  Inv s -> Inv2 s ->
  isMounted s && shows (isButton h) (render (state s)) = true ->
  Inv2 (advance (FromPress h) w (handler h (state s)) s).
Proof.
  intros HI HJ He.
  destruct (Inv_press h w HI He) as [_ Hp].
  set (p := handler h (state s)) in *.
  set (s' := advance (FromPress h) w p s) in *.
  destruct (advance_avoids_new (FromPress h) w isStartupSetter p s
              (handler_avoids_startup h (state s))) as (new & Hnew & Hav).
  fold s' in Hnew.
  (* what the handler does to [isLoading] *)
  assert (Hload :
    Forall (fun t => (forall out, avoids isLoadingSetter (resume t out))
                     \/ detecting t) new
    /\ (isLoading (state s') = true ->
        isLoading (state s) = true \/ exists t, In t new /\ detecting t)).
  { assert (Hquiet : avoids isLoadingSetter p ->
              Forall (fun t => (forall out, avoids isLoadingSetter (resume t out))
                               \/ detecting t) new
              /\ (isLoading (state s') = true ->
                  isLoading (state s) = true \/ exists t, In t new /\ detecting t)).
    { intros Hq.
      destruct (advance_avoids_new (FromPress h) w isLoadingSetter p s Hq)
        as (new' & Hnew' & Hav').
      fold s' in Hnew'. rewrite Hnew in Hnew'. apply app_inv_head in Hnew'.
      subst new'. split.
      - eapply Forall_impl; [|exact Hav']. intros t [_ H]. left. exact H.
      - intros H. left.
        destruct (advance_avoids (FromPress h) w isLoadingSetter isLoading
                    apply_keeps_loading p s Hq) as [Hf _].
        fold s' in Hf. congruence. }
    destruct h.
    - apply Hquiet. subst p. simpl. unfold takePicture.
      destruct (cameraRef_current (state s)); [|exact I].
      simpl. intros [photo|err]; simpl; auto.
    - destruct (detectFaces_finish (image (state s)) (model (state s)) false)
        as [Hret|Hfin].
      + apply Hquiet. subst p. simpl. rewrite Hret. exact I.
      + destruct (advance_finish (FromPress onDetectFaces) w p s Hfin)
          as (new' & Hnew' & Hdet & Hend); [discriminate|].
        fold s' in Hnew', Hend. rewrite Hnew in Hnew'. apply app_inv_head in Hnew'.
        subst new'. split.
        * eapply Forall_impl; [|exact Hdet]. intros t H. right. exact H.
        * intros H. right. destruct new as [|t new]; [rewrite Hend in H; auto;
                                                      discriminate|].
          exists t. split; [left; reflexivity|].
          inversion Hdet; subst. assumption.
    - apply Hquiet. subst p. simpl. auto. }
  destruct Hload as [Hl1 Hl2].
  split; rewrite ?Hnew.
  - eapply Forall_app_origin; [apply (inv_handlers HJ)|exact Hav|].
    intros t _ H _. exact H.
  - apply Forall_app. split; [apply (inv_startup HJ)|].
    eapply Forall_impl; [|exact Hav]. intros t [Ho _] Hc. congruence.
  - congruence.
  - apply Forall_app. split; [apply (inv_loading_tasks HJ)|exact Hl1].
  - intros H. destruct (Hl2 H) as [H0|(t & Hin & Ht)].
    + destruct (inv_loading HJ H0) as (t & Hin & Ht).
      exists t. split; [apply in_or_app; auto|exact Ht].
    + exists t. split; [apply in_or_app; auto|exact Ht].
Qed.

Lemma Inv2_settle s i w t :
  Inv s -> Inv2 s ->
  nth_error (tasks s) i = Some t ->
  Inv2 (advance (origin t) w (resume t (w _ (request t)))
          (withTasks (removeAt i (tasks s)) s)).
Proof.
  intros HI HJ Hn.
  destruct (Inv_settle i w HI Hn) as [_ Hperm].
  set (s0 := withTasks (removeAt i (tasks s)) s) in *.
  set (p := resume t (w _ (request t))) in *.
  set (s' := advance (origin t) w p s0) in *.
  assert (Hin : In t (tasks s)) by (eapply nth_error_In; eauto).
  destruct (advance_shape (origin t) w p s0) as [_ (new & Hnew & _ & Hor)].
  fold s' in Hnew.
  pose proof (inv_handlers HJ) as Hh. pose proof (inv_startup HJ) as Hs.
  pose proof (inv_loading_tasks HJ) as Hlt.
  rewrite Forall_forall in Hh, Hs, Hlt.
  (* a handler's task stays away from the start-up state *)
  assert (Hnew_h : Forall (fun t' => origin t' <> FromMountEffect ->
                             forall out, avoids isStartupSetter (resume t' out)) new).
  { destruct (origin t) eqn:Eo.
    - eapply Forall_impl; [|exact Hor]. intros t' H1 H2. congruence.
    - assert (Hp : avoids isStartupSetter p) by (apply Hh; [exact Hin|congruence]).
      destruct (advance_avoids_new (FromPress h) w isStartupSetter p s0 Hp)
        as (new' & Hnew' & Hav).
      fold s' in Hnew'. rewrite Hnew in Hnew'. apply app_inv_head in Hnew'.
      subst new'. eapply Forall_impl; [|exact Hav]. intros t' [_ H] _. exact H. }
  (* the mount effect stays away from the state of the handlers *)
  assert (Hmount : origin t = FromMountEffect ->
            Forall (fun t' => forall out, avoids isScreenSetter (resume t' out)) new
            /\ detections (state s') = detections (state s)
            /\ isLoading (state s') = isLoading (state s)).
  { intros Eo.
    assert (Hp : avoids isScreenSetter p) by (apply Hs; assumption).
    destruct (advance_avoids_new (origin t) w isScreenSetter p s0 Hp)
      as (new' & Hnew' & Hav).
    fold s' in Hnew'. rewrite Hnew in Hnew'. apply app_inv_head in Hnew'.
    subst new'. split; [eapply Forall_impl; [|exact Hav]; intros t' [_ H]; exact H|].
    split.
    - apply (advance_avoids (origin t) w isScreenSetter detections
               (nonscreen_keeps detections (fun _ _ => eq_refl)
                  (fun _ _ => eq_refl) (fun _ _ => eq_refl)) p s0 Hp).
    - apply (advance_avoids (origin t) w isScreenSetter isLoading
               (nonscreen_keeps isLoading (fun _ _ => eq_refl)
                  (fun _ _ => eq_refl) (fun _ _ => eq_refl)) p s0 Hp). }
  (* what the task does to [isLoading] *)
  assert (Hload :
    Forall (fun t' => (forall out, avoids isLoadingSetter (resume t' out))
                      \/ detecting t') new
    /\ (isLoading (state s') = true -> exists t', In t' (tasks s') /\ detecting t')).
  { assert (Hdet : detecting t ->
              Forall (fun t' => (forall out, avoids isLoadingSetter (resume t' out))
                                \/ detecting t') new
              /\ (isLoading (state s') = true ->
                  exists t', In t' (tasks s') /\ detecting t')).
    { intros [Ho Hf].
      destruct (advance_finish (origin t) w p s0 (Hf _))
        as (new' & Hnew' & Hd & Hend); [discriminate|].
      fold s' in Hnew', Hend. rewrite Hnew in Hnew'. apply app_inv_head in Hnew'.
      subst new'. rewrite Ho in Hd. split.
      - eapply Forall_impl; [|exact Hd]. intros t' H. right. exact H.
      - intros H. destruct new as [|t' new]; [rewrite Hend in H; auto; discriminate|].
        exists t'. split; [rewrite Hnew; apply in_or_app; right; left; reflexivity|].
        inversion Hd; subst. assumption. }
    destruct (Hlt t Hin) as [Hq|Hd]; [|exact (Hdet Hd)].
    assert (Hp : avoids isLoadingSetter p) by exact (Hq _).
    destruct (advance_avoids_new (origin t) w isLoadingSetter p s0 Hp)
      as (new' & Hnew' & Hav).
    fold s' in Hnew'. rewrite Hnew in Hnew'. apply app_inv_head in Hnew'.
    subst new'. split.
    - eapply Forall_impl; [|exact Hav]. intros t' [_ H]. left. exact H.
    - intros H.
      destruct (advance_avoids (origin t) w isLoadingSetter isLoading
                  apply_keeps_loading p s0 Hp) as [Hf _].
      fold s' in Hf. simpl in Hf.
      assert (H0 : isLoading (state s) = true) by congruence.
      destruct (inv_loading HJ H0) as (t' & Hin' & Ht').
      destruct (@In_removeAt _ _ _ _ _ Hn Hin') as [->|Hrem].
      + apply (proj2 (Hdet Ht')), H.
      + exists t'. split; [|exact Ht'].
        rewrite Hnew. apply in_or_app. left. exact Hrem. }
  destruct Hload as [Hl1 Hl2].
  split; rewrite ?Hnew.
  - apply Forall_app. split; [|exact Hnew_h].
    apply Forall_removeAt, (inv_handlers HJ).
  - apply Forall_app. split; [apply Forall_removeAt, (inv_startup HJ)|].
    rewrite Forall_forall. intros t' Hin' Ho.
    assert (Eo : origin t = FromMountEffect).
    { rewrite Forall_forall in Hor. rewrite <- (Hor t' Hin'). exact Ho. }
    destruct (Hmount Eo) as [Hav _]. rewrite Forall_forall in Hav. auto.
  - intros Hp'.
    assert (Hp : hasPermission (state s) <> Some true).
    { intros Hc. apply Hp'. rewrite Hperm; [exact Hc|congruence]. }
    destruct (inv_idle HJ Hp) as (Hall & Hd & Hl).
    rewrite Forall_forall in Hall.
    destruct (Hmount (Hall t Hin)) as (_ & Hd' & Hl').
    split; [|split; congruence].
    apply Forall_app. split.
    + apply Forall_removeAt. rewrite Forall_forall. exact Hall.
    + eapply Forall_impl; [|exact Hor]. intros t' H. rewrite H. apply Hall, Hin.
  - apply Forall_app. split; [|exact Hl1].
    apply Forall_removeAt, (inv_loading_tasks HJ).
  - intros H. destruct (Hl2 H) as (t' & Hin' & Ht').
    exists t'. split; [|exact Ht']. rewrite <- Hnew. exact Hin'.
Qed.

Lemma Inv2_exec s ev : Inv s -> Inv2 s -> Inv2 (exec s ev).
Proof.
  intros HI HJ. destruct ev as [h w|i w|]; simpl.
  - destruct (isMounted s && shows (isButton h) (render (state s))) eqn:He; auto.
    apply Inv2_press; assumption.
  - destruct (nth_error (tasks s) i) as [t|] eqn:Hn; auto.
    apply Inv2_settle; assumption.
  - destruct HJ as [H1 H2 H3 H4 H5]. split; simpl; auto.
Qed.

Lemma Inv2_fold evs : forall s, Inv s -> Inv2 s -> Inv2 (fold_left exec evs s).
Proof.
  induction evs as [|ev evs IH]; intros s HI HJ; simpl; auto.
  apply IH; [apply Inv_exec, HI|apply Inv2_exec; assumption].
Qed.

Lemma Inv2_run evs : Inv2 (run evs).
Proof. apply Inv2_fold; [apply Inv_mount|apply Inv2_mount]. Qed.

Lemma startup_quiet_exec s ev :
  tasksAll (avoids isStartupSetter) (tasks s) ->
  tasksAll (avoids isStartupSetter) (tasks (exec s ev))
  /\ startupState (state (exec s ev)) = startupState (state s).
Proof.
  intros Hq.
  assert (Hk : forall c st, isStartupSetter c = false ->
                 startupState (apply c st) = startupState st)
    by (apply nonstartup_keeps; reflexivity).
  destruct ev as [h w|i w|]; simpl; auto.
  - destruct (isMounted s && shows (isButton h) (render (state s))); auto.
    destruct (advance_avoids (FromPress h) w isStartupSetter startupState Hk
                (handler h (state s)) s (handler_avoids_startup h (state s)))
      as [H1 H2].
    auto.
  - destruct (nth_error (tasks s) i) as [t|] eqn:Hn; auto.
    assert (Hp : avoids isStartupSetter (resume t (w _ (request t)))).
    { unfold tasksAll in Hq. rewrite Forall_forall in Hq.
      apply Hq. eapply nth_error_In; eauto. }
    destruct (advance_avoids (origin t) w isStartupSetter startupState Hk
                (resume t (w _ (request t)))
                (withTasks (removeAt i (tasks s)) s) Hp) as [H1 H2].
    split; [|exact H1]. apply H2. simpl. apply Forall_removeAt, Hq.
Qed.

Lemma startup_quiet_fold later : forall s,
  tasksAll (avoids isStartupSetter) (tasks s) ->
  startupState (state (fold_left exec later s)) = startupState (state s).
Proof.
  induction later as [|ev later IH]; intros s Hq; [reflexivity|]. simpl.
  destruct (@startup_quiet_exec s ev Hq) as [H1 H2].
  rewrite IH by assumption. exact H2.
Qed.

(** X11: once the mount effect is over, with or without success, the
    start-up state is final.  When no task of the mount effect is in flight,
    no later press or completion changes [hasPermission], [isTfReady] or
    [model]; in particular, after a failed model load [model] stays null and
    every later press on "Detect Faces" does nothing. *)
Theorem startup_final : forall evs later,
  Forall (fun t => origin t <> FromMountEffect) (tasks (run evs)) ->
  let s' := fold_left exec later (run evs) in
  hasPermission (state s') = hasPermission (state (run evs))
  /\ isTfReady (state s') = isTfReady (state (run evs))
  /\ model (state s') = model (state (run evs))
  /\ (model (state (run evs)) = None ->
      forall w, exec s' (Press onDetectFaces w) = s').
Proof.
  intros evs later Hno s'.
  assert (Hq : tasksAll (avoids isStartupSetter) (tasks (run evs))).
  { pose proof (inv_handlers (Inv2_run evs)) as Hh.
    unfold tasksAll. rewrite Forall_forall in *. intros t Hin.
    apply Hh; auto. }
  pose proof (startup_quiet_fold later _ Hq) as H. fold s' in H.
  unfold startupState in H. injection H as H1 H2 H3.
  repeat split; auto.
  intros Hm w. simpl. unfold detectFaces. rewrite H3, Hm.
  destruct (isMounted s' && _); [|reflexivity].
  destruct (image (state s')); reflexivity.
Qed.

(** The model fails to load; a photo is taken afterwards. *)
Lemma startup_final_witness :
  let w : Oracle := fun R e =>
    match e in Ext R return Outcome R with
    | blazeface_load => Rejected "fetch failed"
    | e' => oneFace e'
    end in
  let s' := run ([Settle 0 w; Settle 0 w; Settle 0 w]
                 ++ [Press onTakePicture w; Settle 0 w]) in
  shows (isButton onDetectFaces) (render (state s')) = true
  /\ model (state s') = None
  /\ exec s' (Press onDetectFaces w) = s'.
Proof.
  intros w s'. split; [reflexivity|].
  assert (Hno : Forall (fun t => origin t <> FromMountEffect)
                  (tasks (run [Settle 0 w; Settle 0 w; Settle 0 w])))
    by (vm_compute; constructor).
  pose proof (@startup_final [Settle 0 w; Settle 0 w; Settle 0 w]
                [Press onTakePicture w; Settle 0 w] Hno) as H.
  split.
  - exact (eq_trans (proj1 (proj2 (proj2 H))) eq_refl).
  - unfold s', run. rewrite fold_left_app.
    exact (proj2 (proj2 (proj2 H)) eq_refl w).
Defined.

(** X12: a set loading flag has a detection behind it.  In every state the
    running component can reach, [isLoading] is true only while a task started
    by a press on "Detect Faces" is in flight: each run of [detectFaces] ends
    by clearing the flag, and nothing else sets it. *)
Theorem loading_has_detection : forall evs,
  isLoading (state (run evs)) = true ->
  exists t, In t (tasks (run evs)) /\ origin t = FromPress onDetectFaces.
Proof.
  intros evs H.
  destruct (inv_loading (Inv2_run evs) H) as (t & Hin & Ho & _).
  exists t. auto.
Qed.

Lemma loading_has_detection_witness :
  exists t, In t (tasks (run (captured ++ [Press onDetectFaces oneFace])))
            /\ origin t = FromPress onDetectFaces.
Proof.
  apply (loading_has_detection (captured ++ [Press onDetectFaces oneFace])).
  reflexivity.
Defined.

(** X13: without a granted permission nothing but the start-up happens.
    In every state the running component can reach in which the permission
    is not granted (not yet answered, or denied), the image is null, the
    detection set is empty, [isLoading] is false, and every task in flight
    belongs to the mount effect: the camera is never asked for a picture and
    no detection is ever run. *)
Theorem idle_without_permission : forall evs,
  hasPermission (state (run evs)) <> Some true ->
  image (state (run evs)) = None
  /\ detections (state (run evs)) = []
  /\ isLoading (state (run evs)) = false
  /\ Forall (fun t => origin t = FromMountEffect) (tasks (run evs)).
Proof.
  intros evs Hp.
  destruct (inv_image (Inv_run evs) Hp) as [Hi _].
  destruct (inv_idle (Inv2_run evs) Hp) as (Ht & Hd & Hl).
  auto.
Qed.

(** Permission denied, and presses on every button afterwards. *)
Lemma idle_without_permission_witness :
  let s := run [Settle 0 refusing; Press onTakePicture refusing;
                Press onDetectFaces refusing; Settle 1 refusing;
                Press onCaptureAnother refusing] in
  hasPermission (state s) = Some false
  /\ image (state s) = None
  /\ detections (state s) = []
  /\ isLoading (state s) = false
  /\ Forall (fun t => origin t = FromMountEffect) (tasks s).
Proof.
  intros s. split; [reflexivity|].
  apply (idle_without_permission
           [Settle 0 refusing; Press onTakePicture refusing;
            Press onDetectFaces refusing; Settle 1 refusing;
            Press onCaptureAnother refusing]).
  vm_compute. discriminate.
Defined.

(** ** The order of the start-up *)

(** X14: the answer to the permission request is final.  Once
    [hasPermission] is true or false, no later press, completion or unmount
    changes it, also while the rest of the start-up is still in flight. *)
Theorem permission_final : forall evs later b,
  hasPermission (state (run evs)) = Some b ->
  hasPermission (state (fold_left exec later (run evs))) = Some b.
Proof.
  intros evs later b H.
  destruct (Inv_fold later (Inv_run evs)) as [_ Hk].
  rewrite Hk; [exact H|congruence].
Qed.

(** Granted, then a capture, a detection and the unmount. *)
Lemma permission_final_witness :
  hasPermission (state (run ([Settle 0 oneFace]
                             ++ [Press onTakePicture oneFace; Settle 1 oneFace;
                                 Settle 0 oneFace; Unmount; Settle 0 oneFace])))
  = Some true.
Proof.
  unfold run. rewrite fold_left_app.
  apply (@permission_final [Settle 0 oneFace]
           [Press onTakePicture oneFace; Settle 1 oneFace;
            Settle 0 oneFace; Unmount; Settle 0 oneFace] true).
  reflexivity.
Defined.

Lemma ordered_mono A (p : Async A) : forall m n n',
  n <= n' -> ordered m n p -> ordered m n' p.
Proof.
  induction p as [a|err|c k IH|R e k IH|R e k IH|k IH]; intros m n n' Hn Hp;
    simpl in *; auto.
  - destruct c; try (eapply IH; [|exact Hp]; lia).
    + destruct Hp as (Hb & H1 & Hk). repeat split; auto; [lia|].
      eapply IH; [|exact Hk]. lia.
    + destruct Hp as (H2 & Hk). split; [lia|exact Hk].
  - intros out. eapply IH; eauto.
  - intros out. destruct (Hp out) as [H1 H2]. split; [|intros Hm]; eapply IH; eauto.
  - eapply IH; eauto.
Qed.

Lemma avoids_ordered A (p : Async A) : forall m n,
  avoids isStartupSetter p -> ordered m n p.
Proof.
  induction p as [a|err|c k IH|R e k IH|R e k IH|k IH]; intros m n Hp;
    simpl in *; auto.
  destruct Hp as [Hc Hk]. destruct c; simpl in Hc; try discriminate; auto.
Qed.

Lemma mountEffect_ordered m : ordered m 0 mountEffect.
Proof.
  unfold mountEffect, await, readIsMounted.
  destruct m; step_async; simpl; lia.
Qed.

Lemma stage_inOrder st n :
  inOrder st -> n <= stage st ->
  (1 <= n -> hasPermission st <> None) /\ (2 <= n -> isTfReady st = true).
Proof.
  unfold inOrder, stage. intros [H1 H2] Hn.
  destruct (model st) as [mdl|].
  - assert (Ht : isTfReady st = true) by (apply H1; discriminate). auto.
  - destruct (isTfReady st) eqn:Et.
    + auto.
    + destruct (hasPermission st); split; intros; try lia; discriminate.
Qed.

(** A call made at its stage keeps the state in order and does not take
    the start-up back. *)
Lemma apply_ordered c st n :
  inOrder st -> n <= stage st ->
  match c with
  | setIsTfReady b => b = true /\ 1 <= n
  | setModel _ => 2 <= n
  | _ => True
  end ->
  inOrder (apply c st)
  /\ stage st <= stage (apply c st)
  /\ match c with
     | setHasPermission _ => Nat.max n 1
     | setIsTfReady _ => Nat.max n 2
     | setModel _ => 3
     | _ => n
     end <= stage (apply c st).
Proof.
  intros Ho Hn Hc. destruct (stage_inOrder Ho Hn) as [Hp Ht].
  unfold inOrder, stage in *.
  destruct c; simpl;
    destruct (model st) as [mdl|]; destruct (isTfReady st);
    destruct (hasPermission st) as [perm|];
    intuition (subst; first [congruence|lia]).
Qed.

Lemma advance_ordered o w p : forall s n,
  ordered (isMounted s) n p ->
  inOrder (state s) -> n <= stage (state s) ->
  inOrder (state (advance o w p s))
  /\ stage (state s) <= stage (state (advance o w p s))
  /\ exists new, tasks (advance o w p s) = tasks s ++ new
                 /\ Forall (taskOrdered (isMounted s)
                              (stage (state (advance o w p s)))) new.
Proof.
  induction p as [a|err|c k IH|R e k IH|R e k IH|k IH]; intros s n Hp Ho Hn;
    simpl in *.
  - split; [|split]; auto. exists []. rewrite app_nil_r. auto.
  - split; [|split]; auto. exists []. rewrite app_nil_r. auto.
  - assert (Hc : match c with
                 | setIsTfReady b => b = true /\ 1 <= n
                 | setModel _ => 2 <= n
                 | _ => True
                 end) by (destruct c; tauto).
    destruct (@apply_ordered c _ _ Ho Hn Hc) as (Ho' & Hs & Hn').
    assert (Hk : ordered (isMounted s)
                   match c with
                   | setHasPermission _ => Nat.max n 1
                   | setIsTfReady _ => Nat.max n 2
                   | setModel _ => 3
                   | _ => n
                   end k) by (destruct c; tauto).
    destruct (IH (perform c s) _ Hk Ho' Hn') as (H1 & H2 & H3).
    split; [|split]; auto. simpl in H2. lia.
  - apply (IH _ s n); auto.
  - split; [|split]; auto. eexists [_]. split; [reflexivity|].
    constructor; [|constructor]. intros out. simpl.
    destruct (Hp out) as [H1 H2].
    split; [|intros Hm]; eapply ordered_mono; eauto.
  - apply (IH _ s n); auto.
Qed.

Lemma taskOrdered_mono m n n' t :
  n <= n' -> taskOrdered m n t -> taskOrdered m n' t.
Proof.
  intros Hn H out. destruct (H out) as [H1 H2].
  split; [|intros Hm]; eapply ordered_mono; eauto.
Qed.

Lemma taskOrdered_resume m n t out :
  taskOrdered m n t -> ordered m n (resume t out).
Proof. intros H. destruct (H out) as [H1 H2]. destruct m; auto. Qed.

Lemma Inv3_mount : Inv3 mount.
Proof.
  split.
  - split; simpl; [congruence|discriminate].
  - constructor; [|constructor]. intros out. simpl.
    pose proof (mountEffect_ordered true) as H.
    destruct (H out) as [H1 H2]. auto.
Qed.

Lemma Inv3_advance o w p s old :
  inOrder (state s) ->
  ordered (isMounted s) (stage (state s)) p ->
  Forall (taskOrdered (isMounted s) (stage (state s))) old ->
  tasks s = old ->
  Inv3 (advance o w p s).
Proof.
  intros Ho Hp Hold Ht.
  destruct (@advance_ordered o w p s _ Hp Ho (le_n _))
    as (H1 & H2 & new & Hnew & H3).
  destruct (advance_shape o w p s) as [Hm _].
  split; [exact H1|]. rewrite Hm, Hnew, Ht. apply Forall_app. split; [|exact H3].
  eapply Forall_impl; [|exact Hold]. intros t. apply taskOrdered_mono, H2.
Qed.

Lemma Inv3_exec s ev : Inv3 s -> Inv3 (exec s ev).
Proof.
  intros [Ho Ht]. destruct ev as [h w|i w|]; simpl.
  - destruct (isMounted s && shows (isButton h) (render (state s)));
      [|split; assumption].
    apply (@Inv3_advance (FromPress h) w _ s (tasks s) Ho); auto.
    apply avoids_ordered, handler_avoids_startup.
  - destruct (nth_error (tasks s) i) as [t|] eqn:Hn; [|split; assumption].
    apply (@Inv3_advance (origin t) w _ (withTasks (removeAt i (tasks s)) s)
             (removeAt i (tasks s)) Ho); auto.
    + apply taskOrdered_resume. rewrite Forall_forall in Ht.
      apply Ht. eapply nth_error_In; eauto.
    + apply Forall_removeAt, Ht.
  - split; [exact Ho|]. simpl.
    eapply Forall_impl; [|exact Ht]. intros t H out.
    destruct (H out) as [H1 _]. split; [exact H1|discriminate].
Qed.

Lemma Inv3_run evs : Inv3 (run evs).
Proof.
  unfold run. generalize mount Inv3_mount.
  induction evs as [|ev evs IH]; intros s Hs; simpl; auto.
  apply IH, Inv3_exec, Hs.
Qed.

(** X15: the start-up state is set in order.  In every state the running
    component can reach, a loaded model means the runtime flag is set, and a
    set runtime flag means the permission dialog was answered.  So whenever
    [detectFaces] gets past its guard (an image and a model in the state),
    the runtime is ready and the permission is granted, although the guard
    tests neither. *)
Theorem startup_in_order : forall evs,
  let st := state (run evs) in
  (model st <> None -> isTfReady st = true)
  /\ (isTfReady st = true -> hasPermission st <> None)
  /\ (truthy (image st) = true -> model st <> None ->
      isTfReady st = true /\ hasPermission st = Some true).
Proof.
  intros evs st. destruct (inv_order (Inv3_run evs)) as [H1 H2]. fold st in H1, H2.
  repeat split; auto.
  apply image_needs_permission. assumption.
Qed.

Lemma startup_in_order_witness :
  let st := state (run captured) in
  isTfReady st = true /\ hasPermission st = Some true.
Proof.
  apply (startup_in_order captured); [reflexivity|discriminate].
Defined.
